(** * EV charging model: battery state machine, recorder, daily optimizer
      and strategy runner of [ev_model], embedded from the Python source.

    Conventions of the embedding.
    - Python floats are read as exact rationals ([Q]); float [==] is [Qeq_bool],
      [<=] is [Qle_bool], [>] and [<] their negations.  Rounding and NaN are
      not modelled.
    - A timestamp ([datetime], [pd.Timestamp], [np.datetime64]) is the number of
      seconds since 1970-01-01T00:00 UTC, a [Z].
    - Objects that Python shares by reference (chargers and vehicles) live in
      an explicit heap ([gmap] from locations to objects).
    - A function that can raise returns a [Result]: the value it returns or
      the exception it raises.  controller.py reads the conversion factor
      through the global name [sim_Arguments], which the module never binds;
      the functions that read it take the state of that name as an argument
      and raise [NameError] when it is unbound, as it is in the sources. *)

From Stdlib Require Import QArith Qround Qminmax Lqa Lia List.
From Stdlib Require Import Sorting.Permutation Sorting.Sorted.
From stdpp Require Import base gmap strings list sorting.

Local Open Scope Z_scope.

(** ** Numeric helpers: Python comparison operators on floats *)

Definition Qgt_bool (a b : Q) : bool := negb (Qle_bool a b).
Definition Qlt_bool (a b : Q) : bool := negb (Qle_bool b a).

(** ** bricks.py: Schedule *)

Module Time.
(** Calendar reading of a timestamp.  1970-01-01 was a Thursday, and
    [datetime.weekday()] counts Monday as 0. *)
Definition SECONDS_PER_DAY : Z := 86400.
Definition date (t : Z) : Z := t / SECONDS_PER_DAY.
Definition time (t : Z) : Z := t mod SECONDS_PER_DAY.
Definition weekday (t : Z) : Z := (date t + 3) mod 7.
Definition hour (t : Z) : Z := time t / 3600.
(** [datetime.time(h, m)] as seconds after midnight. *)
Definition of_hm (h m : Z) : Z := h * 3600 + m * 60.
(** A timestamp from a day number and a time of day. *)
Definition at_day (d : Z) (tod : Z) : Z := d * SECONDS_PER_DAY + tod.
End Time.

Record Schedule := mkSchedule {
  arrival_time : Z;
  departure_time : Z;
  list_days : list Z
}.

(** [Schedule(arrival_time, departure_time, list_days)] with the dataclass
    defaults and [__post_init__]: a missing day list becomes Monday to Friday. *)
Definition Schedule_init (arrival departure : option Z)
    (days : option (list Z)) : Schedule :=
  {| arrival_time := default (Time.of_hm 8 0) arrival;
     departure_time := default (Time.of_hm 17 0) departure;
     list_days := default [0; 1; 2; 3; 4] days |}.

Definition is_plugged (s : Schedule) (current_dt : Z) : bool :=
  if bool_decide (Time.weekday current_dt ∈ list_days s)
  then (arrival_time s <=? Time.time current_dt)
       && (Time.time current_dt <=? departure_time s)
  else false.

Definition get_plugged_profile (s : Schedule) (timesteps : list Z) : list bool :=
  map (is_plugged s) timesteps.

(** ** bricks.py: Battery *)

Record Battery := mkBattery {
  current_soc : Q;
  target_soc : Q;
  battery_size : Q;
  schedule : Schedule;
  battery_losses : Q;
  initial_soc : Q
}.

Definition set_current_soc (b : Battery) (s : Q) : Battery :=
  {| current_soc := s;
     target_soc := target_soc b;
     battery_size := battery_size b;
     schedule := schedule b;
     battery_losses := battery_losses b;
     initial_soc := initial_soc b |}.

(** The dataclass constructor followed by [__post_init__].  The constructor's
    own [initial_soc] argument is overwritten there, so it is not taken. *)
Definition Battery_init (current target size : Q) (sch : Schedule)
    (losses : Q) : Battery :=
  let target' := if Qgt_bool target 1 then 1%Q else target in
  let current' := if Qgt_bool current 1 then 1%Q else current in
  {| current_soc := current';
     target_soc := target';
     battery_size := size;
     schedule := sch;
     battery_losses := losses;
     initial_soc := current' |}.

Definition current_energy_stored (b : Battery) : Q :=
  (battery_size b * current_soc b)%Q.

Definition target_energy_stored (b : Battery) : Q :=
  (battery_size b * target_soc b)%Q.

Definition requested_energy (b : Battery) : Q :=
  (target_energy_stored b - current_energy_stored b)%Q.

Definition target_charge_achieved (b : Battery) : bool :=
  Qeq_bool (current_soc b) (target_soc b).

Definition calculate_losses (b : Battery) : Battery :=
  set_current_soc b (current_soc b - battery_losses b)%Q.

(** Returns the energy taken and the battery after the step.  The quotient
    by [battery_size] is [Q]'s; the model is meant for a non-zero capacity
    (Python divides floats there). *)
Definition battery_is_charging (b : Battery) (energy_input : Q) : Q * Battery :=
  let temp_charge_amount := (current_soc b * battery_size b + energy_input)%Q in
  if Qle_bool temp_charge_amount (battery_size b * target_soc b)%Q
  then (energy_input, set_current_soc b (temp_charge_amount / battery_size b)%Q)
  else ((target_energy_stored b - current_energy_stored b)%Q,
        set_current_soc b (target_soc b)).

Definition reset_current_soc (b : Battery) : Battery :=
  set_current_soc b (initial_soc b).

Definition battery_is_plugged (b : Battery) (current_dt : Z)
    (energy_input : Q) : Q * Battery :=
  if is_plugged (schedule b) current_dt
  then if negb (target_charge_achieved b)
       then battery_is_charging b energy_input
       else (0%Q, b)
  else (0%Q, reset_current_soc b).

Definition run_model (b : Battery) (current_dt : Z) (energy_input : Q)
    : Q * Battery :=
  battery_is_plugged (calculate_losses b) current_dt energy_input.

(** The loop of [EV.charging_profile] seen from the battery: the states after
    each step of a sequence of (timestep, offer) pairs. *)
Fixpoint run_steps (b : Battery) (steps : list (Z * Q)) : list Battery :=
  match steps with
  | [] => []
  | (t, e) :: rest =>
      let b' := snd (run_model b t e) in
      b' :: run_steps b' rest
  end.

(** ** bricks.py: TimeserieRecorder *)

(** [values.astype('int64')]: conversion of a float to a 64-bit integer drops
    the fractional part (rounds toward zero).  Outside the 64-bit range the
    x86 conversion yields the smallest 64-bit integer. *)
Definition INT64_MIN : Z := - 2 ^ 63.
Definition INT64_MAX : Z := 2 ^ 63 - 1.

Definition astype_int64 (v : Q) : Z :=
  let z := Z.quot (Qnum v) (Zpos (Qden v)) in
  if (INT64_MIN <=? z) && (z <=? INT64_MAX) then z else INT64_MIN.

(** [recorded_data] is a frame with one integer column per header name but
    the first (which names the index), every cell 0 at creation.  A column
    is a finite map from index label to cell. *)
Record TimeserieRecorder := mkRecorder {
  index : list Z;
  header : list string;
  recorded_data : gmap string (gmap Z Z)
}.

Definition get_column_names (hd : list string) : list string := tail hd.

Definition zero_column (ix : list Z) : gmap Z Z :=
  list_to_map ((λ t, (t, 0)) <$> ix).

Definition TimeserieRecorder_init (ix : list Z) (hd : list string)
    : TimeserieRecorder :=
  {| index := ix;
     header := hd;
     recorded_data :=
       list_to_map ((λ c, (c, zero_column ix)) <$> get_column_names hd) |}.

(** [frame.loc[index, col_name] = values]: the cells of column [col_name] at
    the given labels take the given values, position by position.  A label
    that is not in the frame is left out (pandas raises [KeyError] for it;
    every recorder of the repository spans the whole simulation index). *)
Fixpoint loc_assign (ix : list Z) (labels : list Z) (values : list Z)
    (col : gmap Z Z) : gmap Z Z :=
  match labels, values with
  | t :: labels', v :: values' =>
      loc_assign ix labels' values'
        (if bool_decide (t ∈ ix) then <[t := v]> col else col)
  | _, _ => col
  end.

Definition record_batch_data (r : TimeserieRecorder) (labels : list Z)
    (values : list Q) (col_name : string) : TimeserieRecorder :=
  let old := default (zero_column (index r)) (recorded_data r !! col_name) in
  {| index := index r;
     header := header r;
     recorded_data :=
       <[col_name := loc_assign (index r) labels (astype_int64 <$> values) old]>
         (recorded_data r) |}.

(** [recorded_data[col_name].values]: the column in index order. *)
Definition column_values (r : TimeserieRecorder) (col_name : string) : list Z :=
  let col := default ∅ (recorded_data r !! col_name) in
  (λ t, default 0 (col !! t)) <$> index r.

Definition cell (r : TimeserieRecorder) (col_name : string) (t : Z) : option Z :=
  recorded_data r !! col_name ≫= λ col, col !! t.

(** ** sim_parameters.py (not among the sources) *)

(** Modelled from the spec: [sim_parameters.POWER_TO_ENERGY_FACTOR] is the
    constant that converts a power (kW) into the energy (kWh) of one
    timestep; the sampling interval is 30 minutes, half an hour. *)
Definition POWER_TO_ENERGY_FACTOR : Q := 1 # 2.

(** ** Frames of the optimizer *)

(** One row of the site frame that travels through the daily optimizer:
    the index label and the columns of [OptimizerSchema] that are read. *)
Record Row := mkRow {
  idx : Z;
  site_energy : Q;            (* "Site energy [kWh]" *)
  target : Q;                 (* "target" *)
  charger_load_profile : Q;   (* "charger load profile [kW]" *)
  cumulative_energy : Q       (* "Cumulative energy [kWh]" *)
}.

Definition set_charger_load_profile (r : Row) (p : Q) : Row :=
  {| idx := idx r; site_energy := site_energy r; target := target r;
     charger_load_profile := p; cumulative_energy := cumulative_energy r |}.

Definition set_cumulative_energy (r : Row) (c : Q) : Row :=
  {| idx := idx r; site_energy := site_energy r; target := target r;
     charger_load_profile := charger_load_profile r; cumulative_energy := c |}.

Definition set_site_energy (r : Row) (e : Q) : Row :=
  {| idx := idx r; site_energy := e; target := target r;
     charger_load_profile := charger_load_profile r;
     cumulative_energy := cumulative_energy r |}.

(** Insertion sort by a boolean order; used for [sort_index]. *)
Fixpoint insert_by {A} (leb : A → A → bool) (x : A) (l : list A) : list A :=
  match l with
  | [] => [x]
  | y :: l' => if leb x y then x :: l else y :: insert_by leb x l'
  end.

Definition isort_by {A} (leb : A → A → bool) (l : list A) : list A :=
  foldr (insert_by leb) [] l.

(** [frame.sort_index()] on a frame of (label, value) rows. *)
Definition sort_index {A} (l : list (Z * A)) : list (Z * A) :=
  isort_by (λ a b, fst a <=? fst b) l.

(** ** Exceptions *)

(** The exceptions that the embedded code raises. *)
Inductive Exception := NameError | IndexError | ValueError.

(** The outcome of a call: the value returned, or the exception raised. *)
Inductive Result (A : Type) : Type :=
  | Returned (a : A)
  | Raised (e : Exception).

Arguments Returned {A} a.
Arguments Raised {A} e.

#[global] Instance Result_ret : MRet Result := λ A, @Returned A.

#[global] Instance Result_bind : MBind Result :=
  λ A B f m, match m with Returned a => f a | Raised e => Raised e end.

(** ** controller.py: the global name [sim_Arguments]

    controller.py imports the module [sim_parameters] (line 13), but where
    it needs the conversion factor it reads
    [sim_Arguments.POWER_TO_ENERGY_FACTOR] (lines 101, 126, 190, 195, 249,
    266 and 451).  No statement of the module binds [sim_Arguments].  Python
    resolves a global name when the expression is evaluated, so each of
    these reads raises [NameError] unless the name has been put into the
    module's namespace from outside.  The state of the name is an argument
    of every function that reads it: [Unbound] is controller.py as it is in
    the sources, [Bound] is the module with [sim_Arguments] naming
    [sim_parameters], the module charger.py and data_processing.py read the
    same constant from. *)
Inductive Binding := Unbound | Bound.

(** The namespace of controller.py once the module is imported. *)
Definition controller_namespace : Binding := Unbound.

(** Evaluating the expression [sim_Arguments.POWER_TO_ENERGY_FACTOR]. *)
Definition sim_Arguments_POWER_TO_ENERGY_FACTOR (sim_Arguments : Binding)
    : Result Q :=
  match sim_Arguments with
  | Unbound => Raised NameError
  | Bound => Returned POWER_TO_ENERGY_FACTOR
  end.

(** ** controller.py: the daily optimizer *)

(** One cell of [np.where(site + max_output > limit, limit - site, max_output)]
    followed by [np.where(profile < 0, 0, profile)]. *)
Definition charger_load_availability_profile
    (site_load_demand max_import_demand max_charger_output : Q) : Q :=
  let charger_max_load :=
    if Qgt_bool (site_load_demand + max_charger_output) max_import_demand
    then (max_import_demand - site_load_demand)%Q
    else max_charger_output in
  if Qlt_bool charger_max_load 0 then 0%Q else charger_max_load.

(** [frame.loc[filt, column]]: the rows whose mask entry is true. *)
Fixpoint loc_mask {A} (filt : list bool) (l : list A) : list A :=
  match filt, l with
  | true :: filt', x :: l' => x :: loc_mask filt' l'
  | false :: filt', _ :: l' => loc_mask filt' l'
  | _, _ => []
  end.

(** [frame.loc[filt, column] = values]: the rows whose mask entry is true
    take the values in order, the other rows are left as they are. *)
Fixpoint loc_mask_assign (filt : list bool) (values : list Q)
    (rows : list Row) : list Row :=
  match filt, rows with
  | true :: filt', r :: rows' =>
      match values with
      | p :: values' =>
          set_charger_load_profile r p :: loc_mask_assign filt' values' rows'
      | [] => r :: loc_mask_assign filt' [] rows'
      end
  | false :: filt', r :: rows' => r :: loc_mask_assign filt' values rows'
  | _, _ => rows
  end.

(** [combine_load_profile].  The load column is zeroed and the plugged mask
    computed; then the arguments of [charger_load_availability_profile] are
    evaluated from left to right.  The first is the plugged site energy
    over [sim_Arguments.POWER_TO_ENERGY_FACTOR]: this is where the call
    raises [NameError] while the name is unbound.  The second masks the
    limit frame with the same boolean array, which pandas refuses with
    [IndexError] when the lengths differ.  The comparison of the two masked
    series inside [charger_load_availability_profile] needs them to carry
    the same labels ([ValueError] otherwise).  The availability of the
    plugged rows is written back through the mask.  The vehicle enters
    through its schedule only. *)
Definition combine_load_profile (sim_Arguments : Binding)
    (site_dataf : list Row) (sch : Schedule)
    (max_import_demand : list (Z * Q)) (max_charger_output : Q)
    : Result (list Row) :=
  let site_dataf := (λ r, set_charger_load_profile r 0) <$> site_dataf in
  let plugged_time := get_plugged_profile sch (idx <$> site_dataf) in
  factor ← sim_Arguments_POWER_TO_ENERGY_FACTOR sim_Arguments;
  let site_load_demand_profile :=
    (λ r, (idx r, (site_energy r / factor)%Q))
      <$> loc_mask plugged_time site_dataf in
  if negb (length max_import_demand =? length plugged_time)%nat
  then Raised IndexError
  else
    let plugged_import_demand := loc_mask plugged_time max_import_demand in
    if negb (bool_decide (fst <$> site_load_demand_profile
                          = fst <$> plugged_import_demand))
    then Raised ValueError
    else
      Returned
        (loc_mask_assign plugged_time
           (zip_with
              (λ site limit,
                 charger_load_availability_profile (snd site) (snd limit)
                   max_charger_output)
              site_load_demand_profile plugged_import_demand)
           site_dataf).

(** [Series.cumsum()] of the load column times the conversion factor; the
    running sum starts from nothing, which adds like 0. *)
Fixpoint cumsum_from (factor acc : Q) (rows : list Row) : list Row :=
  match rows with
  | [] => []
  | r :: rows' =>
      let c := (acc + charger_load_profile r * factor)%Q in
      set_cumulative_energy r c :: cumsum_from factor c rows'
  end.

Definition find_last_index (dataf : list Row) (energy_required : Q) : nat :=
  let last_index :=
    (length (filter (λ r, Qlt_bool (cumulative_energy r) energy_required = true)
               dataf) + 1)%nat in
  if (length dataf <? last_index)%nat then length dataf else last_index.

Definition generate_filter (dataf : list Row) (energy_required : Q) : list bool :=
  let last_charging_index := find_last_index dataf energy_required in
  imap (λ i _, bool_decide (i < last_charging_index)%nat) dataf.

(** The loop of [calculate_optimized_charging_profile] over the selected
    load values, carrying [total_charger_energy_output].  The body reads
    [sim_Arguments.POWER_TO_ENERGY_FACTOR] first thing (line 190), and once
    more on the clipping branch (line 195); an empty selection does not
    enter the loop. *)
Fixpoint optimized_loop (sim_Arguments : Binding)
    (energy_required total_charger_energy_output : Q)
    (org_charger_load_profile : list Q) : Result (list Q) :=
  match org_charger_load_profile with
  | [] => Returned []
  | temp_charger_power_output :: rest =>
      factor ← sim_Arguments_POWER_TO_ENERGY_FACTOR sim_Arguments;
      let temp_charger_energy_output :=
        (temp_charger_power_output * factor)%Q in
      if Qgt_bool (total_charger_energy_output + temp_charger_energy_output)
           energy_required
      then
        let temp_charger_energy_output' :=
          (energy_required - total_charger_energy_output)%Q in
        factor' ← sim_Arguments_POWER_TO_ENERGY_FACTOR sim_Arguments;
        updated ← optimized_loop sim_Arguments energy_required
                    (total_charger_energy_output + temp_charger_energy_output')%Q
                    rest;
        Returned ((temp_charger_energy_output' / factor')%Q :: updated)
      else
        updated ← optimized_loop sim_Arguments energy_required
                    (total_charger_energy_output + temp_charger_energy_output)%Q
                    rest;
        Returned (temp_charger_power_output :: updated)
  end.

Definition calculate_optimized_charging_profile (sim_Arguments : Binding)
    (dataf : list Row) (energy_required : Q) : Result (list Q) :=
  let filt := generate_filter dataf energy_required in
  let org_charger_load_profile :=
    charger_load_profile <$> loc_mask filt dataf in
  optimized_loop sim_Arguments energy_required 0 org_charger_load_profile.

(** [temp.loc[filt, column] = updated] and [temp.loc[~filt, column] = 0]:
    the selected rows take the updated values in order, the others 0. *)
Fixpoint assign_profile (filt : list bool) (updated : list Q)
    (rows : list Row) : list Row :=
  match filt, rows with
  | true :: filt', r :: rows' =>
      match updated with
      | p :: updated' =>
          set_charger_load_profile r p :: assign_profile filt' updated' rows'
      | [] => r :: assign_profile filt' [] rows'
      end
  | false :: filt', r :: rows' =>
      set_charger_load_profile r 0 :: assign_profile filt' updated rows'
  | _, _ => []
  end.

Definition to_frame (rows : list Row) : list (Z * Q) :=
  (λ r, (idx r, charger_load_profile r)) <$> rows.

Definition apply_new_charging_profile (sim_Arguments : Binding)
    (dataf : list Row) (energy_required : Q) : Result (list (Z * Q)) :=
  let filt := generate_filter dataf energy_required in
  updated_charger_load_profile ←
    calculate_optimized_charging_profile sim_Arguments dataf energy_required;
  Returned
    (sort_index (to_frame (assign_profile filt updated_charger_load_profile
                             dataf))).

Definition get_single_day_data {A} (label : A → Z) (temp_date : Z)
    (site_data : list A) : list A :=
  filter (λ r, Time.date (label r) = temp_date) site_data.

(** ** vehicles.py, charger.py: objects on the heap *)

Abbreviation loc := positive.

Record EV := mkEV {
  ev_name : string;
  battery : Battery;
  ev_data_recorder : TimeserieRecorder
}.

Inductive ChargerType := LEVEL_1 | LEVEL_2 | LEVEL_3.

(** A charger refers to its vehicles; the same vehicle object may be listed
    by several chargers and by the fleet roster. *)
Record Charger := mkCharger {
  charger_name : string;
  charger_type : ChargerType;
  max_output : Q;
  ev_list : list loc;
  no_connections : Z;
  data_recorder : TimeserieRecorder;
  specific_capital_cost : Q;
  specific_maintenance_cost : Q;
  size_system : Q;
  lifetime : Z
}.

Record Heap := mkHeap {
  evs : gmap loc EV;
  chargers : gmap loc Charger
}.

Definition set_evs (h : Heap) (m : gmap loc EV) : Heap :=
  {| evs := m; chargers := chargers h |}.

Definition set_chargers (h : Heap) (m : gmap loc Charger) : Heap :=
  {| evs := evs h; chargers := m |}.

Definition set_battery (ev : EV) (b : Battery) : EV :=
  {| ev_name := ev_name ev; battery := b;
     ev_data_recorder := ev_data_recorder ev |}.

Definition set_ev_data_recorder (ev : EV) (r : TimeserieRecorder) : EV :=
  {| ev_name := ev_name ev; battery := battery ev; ev_data_recorder := r |}.

Definition set_data_recorder (c : Charger) (r : TimeserieRecorder) : Charger :=
  {| charger_name := charger_name c; charger_type := charger_type c;
     max_output := max_output c; ev_list := ev_list c;
     no_connections := no_connections c; data_recorder := r;
     specific_capital_cost := specific_capital_cost c;
     specific_maintenance_cost := specific_maintenance_cost c;
     size_system := size_system c; lifetime := lifetime c |}.

Definition set_ev_list (c : Charger) (l : list loc) : Charger :=
  {| charger_name := charger_name c; charger_type := charger_type c;
     max_output := max_output c; ev_list := l;
     no_connections := no_connections c; data_recorder := data_recorder c;
     specific_capital_cost := specific_capital_cost c;
     specific_maintenance_cost := specific_maintenance_cost c;
     size_system := size_system c; lifetime := lifetime c |}.

(** Column names of [enums.EVData], [enums.ChargerData], [enums.SiteData]. *)
Definition TIMESTEP : string := "TIMESTEP".
Definition SOC : string := "SOC".
Definition ENERGY_INPUT : string := "ENERGY_INPUT".
Definition PLUGGED : string := "PLUGGED".

Definition EVData : list string := [TIMESTEP; SOC; ENERGY_INPUT; PLUGGED].
Definition ChargerData : list string := [TIMESTEP; ENERGY_INPUT].
Definition SiteData : list string := [TIMESTEP; ENERGY_INPUT].

(** The three arrays filled by the loop of [EV.charging_profile]. *)
Record EVTrace := mkTrace {
  soc_arr : list Q;
  energy_input_arr : list Q;
  plugged_flag_arr : list Q
}.

(** The loop of [EV.charging_profile]: the offer of a step is the entry of
    [charger_max_energy_outputs] at the position of the timestep (an array
    that is too short raises [IndexError] in Python; the model offers 0). *)
Fixpoint charging_loop (b : Battery) (timesteps : list Z)
    (charger_max_energy_outputs : list Q) : Battery * EVTrace :=
  match timesteps with
  | [] => (b, mkTrace [] [] [])
  | charge_timestep :: timesteps' =>
      let current_charger_output := hd 0%Q charger_max_energy_outputs in
      let '(consumed, b') :=
        run_model b charge_timestep current_charger_output in
      let '(b'', tr) :=
        charging_loop b' timesteps' (tail charger_max_energy_outputs) in
      (b'', mkTrace (current_soc b' :: soc_arr tr)
                    (consumed :: energy_input_arr tr)
                    ((if is_plugged (schedule b') charge_timestep
                      then 1%Q else 0%Q) :: plugged_flag_arr tr))
  end.

Definition EV_charging_profile (ev : EV) (timesteps : list Z)
    (charger_max_energy_outputs : list Q) : list Q * EV :=
  let '(b', tr) :=
    charging_loop (battery ev) timesteps charger_max_energy_outputs in
  let r1 := record_batch_data (ev_data_recorder ev) timesteps (soc_arr tr) SOC in
  let r2 := record_batch_data r1 timesteps (energy_input_arr tr) ENERGY_INPUT in
  let r3 := record_batch_data r2 timesteps (plugged_flag_arr tr) PLUGGED in
  (energy_input_arr tr, set_ev_data_recorder (set_battery ev b') r3).

(** The method called through a reference: the vehicle at [l] is replaced by
    its state after the call.  A reference always designates an object in
    Python; at a location without object the model does nothing. *)
Definition ev_charging_profile_at (l : loc) (timesteps : list Z)
    (outputs : list Q) (h : Heap) : list Q * Heap :=
  match evs h !! l with
  | Some ev =>
      let '(dispatched, ev') := EV_charging_profile ev timesteps outputs in
      (dispatched, set_evs h (<[l := ev']> (evs h)))
  | None => ((λ _, 0%Q) <$> timesteps, h)
  end.

Definition zeros {A} (l : list A) : list Q := (λ _, 0%Q) <$> l.

Definition Qinject_nat (n : nat) : Q := inject_Z (Z.of_nat n).

(** The loop of [Charger.charging_profile] over [ev_list]. *)
Fixpoint dispatch_loop (evl : list loc) (timesteps : list Z)
    (schedule_energy_output : list Q) (total_charger_output : list Q)
    (h : Heap) : list Q * Heap :=
  match evl with
  | [] => (total_charger_output, h)
  | ev :: evl' =>
      let '(dispatched_energy, h') :=
        ev_charging_profile_at ev timesteps schedule_energy_output h in
      dispatch_loop evl' timesteps schedule_energy_output
        (zip_with (λ t d, (t + d / POWER_TO_ENERGY_FACTOR)%Q)
           total_charger_output dispatched_energy)
        h'
  end.

Definition Charger_charging_profile (c : loc) (timesteps : list Z)
    (schedule_charging : option (list Q)) (h : Heap) : list Q * Heap :=
  match chargers h !! c with
  | Some self =>
      let total_charger_output := zeros timesteps in
      let schedule_charging' :=
        match schedule_charging with
        | Some s => s
        | None =>
            (λ z, (z + max_output self
                         / Qinject_nat (length (ev_list self)))%Q)
              <$> zeros timesteps
        end in
      let schedule_energy_output :=
        (λ p, (p * POWER_TO_ENERGY_FACTOR)%Q) <$> schedule_charging' in
      let '(total, h') :=
        dispatch_loop (ev_list self) timesteps schedule_energy_output
          total_charger_output h in
      let h'' :=
        set_chargers h'
          (alter (λ ch, set_data_recorder ch
                    (record_batch_data (data_recorder ch) timesteps
                       ((λ p, (p * POWER_TO_ENERGY_FACTOR)%Q) <$> total)
                       ENERGY_INPUT))
                 c (chargers h')) in
      (total, h'')
  | None => (zeros timesteps, h)
  end.


(** ** controller.py: ranking, the year loop and [run_optimizer] *)

Section WithSortValues.

(** [DataFrame.sort_values(target_col, ascending=ascending)] is code of
    pandas, not of the repository, and the call leaves [kind] at its
    default: which order rows of equal target come out in is decided inside
    the library.  The ranking is therefore a parameter of the embedding. *)
Variable sort_values : bool → list Row → list Row.

Variable sim_Arguments : Binding.

(** The frame is ranked first; the cumulative column needs
    [sim_Arguments.POWER_TO_ENERGY_FACTOR] (line 126), so with the name
    unbound the call raises after the sort and the ranked frame is lost. *)
Definition cumsum_energy_consumed (site_dataf : list Row) (ascending : bool)
    : Result (list Row) :=
  let temp_dataf := sort_values ascending site_dataf in
  factor ← sim_Arguments_POWER_TO_ENERGY_FACTOR sim_Arguments;
  Returned (cumsum_from factor 0 temp_dataf).

Definition get_charging_profile_for_single_day (day_dataf : list Row)
    (ev : EV) (max_import_demand : list (Z * Q)) (max_charger_load : Q)
    : Result (list (Z * Q)) :=
  combined ← combine_load_profile sim_Arguments day_dataf
                (schedule (battery ev)) max_import_demand max_charger_load;
  ranked ← cumsum_energy_consumed combined true;
  apply_new_charging_profile sim_Arguments ranked
    (requested_energy (battery ev)).

(** The dates of the index, each once ([set(site_data.index.date)]; the
    order in which a set is walked is not fixed by Python, the model takes
    the dates in order of first appearance). *)
Definition index_dates (site_data : list Row) : list Z :=
  remove_dups ((λ r, Time.date (idx r)) <$> site_data).

(** The loop stops at the first day that raises.  [pd.concat] of an empty
    list of frames (a site frame without rows) raises [ValueError]. *)
Definition get_charging_profile_for_year (site_data : list Row)
    (temp_ev : EV) (max_charger_output : Q)
    (max_import_demand : list (Z * Q)) : Result (list (Z * Q)) :=
  new_frames ←
    mapM (λ temp_date,
            let day_dataf := get_single_day_data idx temp_date site_data in
            let day_import_demand :=
              get_single_day_data fst temp_date max_import_demand in
            get_charging_profile_for_single_day day_dataf temp_ev
              day_import_demand max_charger_output)
         (index_dates site_data);
  match new_frames with
  | [] => Raised ValueError
  | _ :: _ => Returned (sort_index (concat new_frames))
  end.

(** [site_df[SITE_ENERGY] += charger_energy_demand]: the recorder column is
    added position by position. *)
Definition add_site_energy (site_df : list Row) (demand : list Z) : list Row :=
  zip_with (λ r d, set_site_energy r (site_energy r + inject_Z d)%Q)
    site_df demand.

(** The inner loop of [run_optimizer], over the vehicles of one charger.
    The vehicle is read through its reference when its turn comes.  A call
    that raises leaves the heap as the writes before it made it.  Adding a
    recorder column of another length than the site frame raises
    [ValueError]; the maximum of the site load is then taken over
    [sim_Arguments.POWER_TO_ENERGY_FACTOR] again (line 266). *)
Fixpoint run_optimizer_evs (c : loc) (charger_max_output : Q)
    (evl : list loc) (max_import_demand : list (Z * Q))
    (site_df : list Row) (h : Heap) : Result (list Row) * Heap :=
  match evl with
  | [] => (Returned site_df, h)
  | l :: evl' =>
      match evs h !! l with
      | Some temp_ev =>
          match get_charging_profile_for_year site_df temp_ev
                  charger_max_output max_import_demand with
          | Raised e => (Raised e, h)
          | Returned charger_load_profile =>
              let '(_, h') :=
                Charger_charging_profile c (fst <$> charger_load_profile)
                  (Some (snd <$> charger_load_profile)) h in
              let charger_energy_demand :=
                match chargers h' !! c with
                | Some ch => column_values (data_recorder ch) ENERGY_INPUT
                | None => []
                end in
              if negb (length charger_energy_demand =? length site_df)%nat
              then (Raised ValueError, h')
              else
                match sim_Arguments_POWER_TO_ENERGY_FACTOR sim_Arguments with
                | Raised e => (Raised e, h')
                | Returned _ =>
                    run_optimizer_evs c charger_max_output evl'
                      max_import_demand
                      (add_site_energy site_df charger_energy_demand) h'
                end
          end
      | None =>
          run_optimizer_evs c charger_max_output evl' max_import_demand
            site_df h
      end
  end.

(** The outer loop, over [dict_chargers.values()]; [results] collects the
    columns added to [results_df], one per charger name. *)
Fixpoint run_optimizer_chargers (dict_chargers : list (string * loc))
    (max_import_demand : list (Z * Q))
    (results : list (string * list Z)) (site_df : list Row) (h : Heap)
    : Result (list (string * list Z)) * Heap :=
  match dict_chargers with
  | [] => (Returned results, h)
  | (_, c) :: rest =>
      match chargers h !! c with
      | Some sim_charger =>
          match run_optimizer_evs c (max_output sim_charger)
                  (ev_list sim_charger) max_import_demand site_df h with
          | (Raised e, h') => (Raised e, h')
          | (Returned site_df', h') =>
              let col :=
                match chargers h' !! c with
                | Some ch =>
                    [(charger_name ch,
                      column_values (data_recorder ch) ENERGY_INPUT)]
                | None => []
                end in
              run_optimizer_chargers rest max_import_demand (results ++ col)
                site_df' h'
          end
      | None =>
          run_optimizer_chargers rest max_import_demand results site_df h
      end
  end.

(** [run_optimizer] copies the site frame and sums it, then divides its
    maximum by [sim_Arguments.POWER_TO_ENERGY_FACTOR] (line 249), before the
    loop over the chargers: with the name unbound the call raises there,
    whatever the roster.  Otherwise it returns [results_df] (the site frame
    as it came in, and the added columns); [site_df], changed in place, is
    dropped by the callers. *)
Definition run_optimizer (dict_chargers : list (string * loc))
    (site_df : list Row) (max_import_demand : list (Z * Q)) (h : Heap)
    : Result (list Row * list (string * list Z)) * Heap :=
  match sim_Arguments_POWER_TO_ENERGY_FACTOR sim_Arguments with
  | Raised e => (Raised e, h)
  | Returned _ =>
      match run_optimizer_chargers dict_chargers max_import_demand []
              site_df h with
      | (Raised e, h') => (Raised e, h')
      | (Returned results, h') => (Returned (site_df, results), h')
      end
  end.

End WithSortValues.

(** ** data_processing.py and [optimizer_selector]

    The input frames are single-column series over the timestep index,
    lists of (label, value).  [pd.concat(..., axis=1)] joins its frames on
    their index labels: for two frames over the same index, which is how the
    repository builds them, that puts the columns side by side, row by row,
    and this is what [create_dataf_for_control] below computes.  For frames
    over different indexes pandas returns the union of the labels with NaN
    in the cells a frame has no value for; NaN is outside the rational
    reading of floats, and the pairing by position below says nothing about
    such frames. *)

Definition create_dataf_base (electricity_demand : list (Z * Q)) : list Row :=
  (λ '(t, e), mkRow t e (inject_Z (Time.hour t)) 0 0) <$> electricity_demand.

Definition create_dataf_for_control (target_dataf electricity_demand : list (Z * Q))
    : list Row :=
  zip_with (λ '(t, v) '(_, e), mkRow t e v 0 0) target_dataf electricity_demand.

(** [DataFrame.equals] on two such frames. *)
Definition frame_equals (a b : list (Z * Q)) : bool :=
  (length a =? length b)%nat
  && forallb (λ '((t, v), (t', v')), (t =? t') && Qeq_bool v v') (zip a b).

(** When the target frame equals the demand frame (the PV strategy passes
    the same frame twice), the site-energy column is overwritten with the
    first column and the columns at positions 1 and 2 are kept: target and
    site energy both carry the values of that frame. *)
Definition optimizer_selector (electricity_demand : list (Z * Q))
    (target_dataf : option (list (Z * Q))) : list Row :=
  match target_dataf with
  | None => create_dataf_base electricity_demand
  | Some target_frame =>
      if frame_equals target_frame electricity_demand
      then (λ r, set_site_energy r (target r))
             <$> create_dataf_for_control target_frame electricity_demand
      else create_dataf_for_control target_frame electricity_demand
  end.

(** ** ev_system.py *)

Record Ev_System := mkEvSystem {
  sys_name : string;
  sys_data_recorder : TimeserieRecorder;
  dict_site_assets : list (string * loc);
  timezone : string;
  _size_system : Q
}.

Definition lookup_chargers (assets : list (string * loc)) (h : Heap)
    : list Charger :=
  omap (λ '(_, c), chargers h !! c) assets.

Definition get_capacity_installed (assets : list (string * loc)) (h : Heap) : Q :=
  foldr (λ c acc, (max_output c + acc)%Q) 0%Q (lookup_chargers assets h).

(** The row sum of the chargers' recorded frames at one label; a charger
    without a cell at the label contributes nothing. *)
Definition recorder_row_sum (r : TimeserieRecorder) (t : Z) : Z :=
  map_fold (λ _ col acc, default 0 (col !! t) + acc) 0 (recorded_data r).

Definition all_charging_profiles_index (cs : list Charger) : list Z :=
  remove_dups (concat ((λ c, index (data_recorder c)) <$> cs)).

(** [get_recorded_data_from_chargers]: the sums over all charger columns are
    recorded into the system's own recorder.  With no charger in the roster
    [frames] is empty and [pd.concat(frames, axis=1)] raises [ValueError]. *)
Definition get_recorded_data_from_chargers (s : Ev_System) (h : Heap)
    : Result Ev_System :=
  let cs := lookup_chargers (dict_site_assets s) h in
  match cs with
  | [] => Raised ValueError
  | _ :: _ =>
      let ix := all_charging_profiles_index cs in
      let sums :=
        (λ t, inject_Z (foldr (λ c acc, recorder_row_sum (data_recorder c) t + acc)
                          0 cs)) <$> ix in
      Returned
        {| sys_name := sys_name s;
           sys_data_recorder :=
             record_batch_data (sys_data_recorder s) ix sums ENERGY_INPUT;
           dict_site_assets := dict_site_assets s;
           timezone := timezone s;
           _size_system := _size_system s |}
  end.

(** The constructor with [__post_init__]. *)
Definition Ev_System_init (nm : string) (rec : TimeserieRecorder)
    (assets : list (string * loc)) (h : Heap) : Result Ev_System :=
  get_recorded_data_from_chargers
    {| sys_name := nm; sys_data_recorder := rec; dict_site_assets := assets;
       timezone := "UTC"; _size_system := get_capacity_installed assets h |}
    h.

(** ** [copy.deepcopy] of the charger roster *)

(** The memo of [deepcopy]: an object met twice is copied once, so the copy
    has the sharing of the original.  A copy is a new object: it is put at a
    location the heap does not use. *)
Record CopyState := mkCopyState {
  memo_evs : gmap loc loc;
  memo_chargers : gmap loc loc;
  cs_heap : Heap
}.

Definition deepcopy_EV (l : loc) (st : CopyState) : loc * CopyState :=
  match memo_evs st !! l with
  | Some l' => (l', st)
  | None =>
      match evs (cs_heap st) !! l with
      | Some ev =>
          let l' := fresh (dom (evs (cs_heap st))) in
          (l', {| memo_evs := <[l := l']> (memo_evs st);
                  memo_chargers := memo_chargers st;
                  cs_heap := set_evs (cs_heap st)
                               (<[l' := ev]> (evs (cs_heap st))) |})
      | None => (l, st)
      end
  end.

Fixpoint deepcopy_ev_list (evl : list loc) (st : CopyState)
    : list loc * CopyState :=
  match evl with
  | [] => ([], st)
  | l :: evl' =>
      let '(l', st') := deepcopy_EV l st in
      let '(evl'', st'') := deepcopy_ev_list evl' st' in
      (l' :: evl'', st'')
  end.

Definition deepcopy_Charger (c : loc) (st : CopyState) : loc * CopyState :=
  match memo_chargers st !! c with
  | Some c' => (c', st)
  | None =>
      match chargers (cs_heap st) !! c with
      | Some ch =>
          let '(evl', st') := deepcopy_ev_list (ev_list ch) st in
          let c' := fresh (dom (chargers (cs_heap st'))) in
          (c', {| memo_evs := memo_evs st';
                  memo_chargers := <[c := c']> (memo_chargers st');
                  cs_heap := set_chargers (cs_heap st')
                               (<[c' := set_ev_list ch evl']>
                                  (chargers (cs_heap st'))) |})
      | None => (c, st)
      end
  end.

Fixpoint deepcopy_dict (d : list (string * loc)) (st : CopyState)
    : list (string * loc) * CopyState :=
  match d with
  | [] => ([], st)
  | (k, c) :: d' =>
      let '(c', st') := deepcopy_Charger c st in
      let '(d'', st'') := deepcopy_dict d' st' in
      ((k, c') :: d'', st'')
  end.

Definition deepcopy (d : list (string * loc)) (h : Heap)
    : list (string * loc) * Heap :=
  let '(d', st) := deepcopy_dict d (mkCopyState ∅ ∅ h) in
  (d', cs_heap st).

(** ** controller.py: Optimized_Sites *)

Inductive SiteScheduleOptimzer :=
  | BASE_OPTIMIZER
  | EMISSION_OPTIMIZER
  | PRICE_OPTIMIZER
  | PV_OPTIMIZER.

Definition control_type_name (c : SiteScheduleOptimzer) : string :=
  match c with
  | BASE_OPTIMIZER => "BASE_OPTIMIZER"
  | EMISSION_OPTIMIZER => "EMISSION_OPTIMIZER"
  | PRICE_OPTIMIZER => "PRICE_OPTIMIZER"
  | PV_OPTIMIZER => "PV_OPTIMIZER"
  end.

Record Optimized_Sites := mkOptimizedSites {
  timesteps : list Z;
  site_electricity_demand : list (Z * Q);
  dict_of_chargers : list (string * loc);
  site_data_recorder : TimeserieRecorder;
  max_import_demand : list (Z * Q);
  carbon_dataf : option (list (Z * Q));
  price_dataf : option (list (Z * Q));
  pv_dataf : option (list (Z * Q))
}.

(** A strategy is called only with its frame present (the check is in
    [run_control_method]); [optimizer_selector] with no target is the base
    frame. *)
Definition site_dataf_creator (self : Optimized_Sites)
    (control_type : SiteScheduleOptimzer) : list Row :=
  match control_type with
  | BASE_OPTIMIZER => optimizer_selector (site_electricity_demand self) None
  | EMISSION_OPTIMIZER =>
      optimizer_selector (site_electricity_demand self) (carbon_dataf self)
  | PRICE_OPTIMIZER =>
      optimizer_selector (site_electricity_demand self) (price_dataf self)
  | PV_OPTIMIZER =>
      optimizer_selector (default [] (pv_dataf self)) (pv_dataf self)
  end.

Definition generate_controlled_site (self : Optimized_Sites)
    (chargers_dict : list (string * loc)) (control_type : SiteScheduleOptimzer)
    (h : Heap) : Result Ev_System :=
  Ev_System_init (control_type_name control_type +:+ "_SITE")
    (site_data_recorder self) chargers_dict h.

Definition site_charging_profiles (controlled_site : Ev_System) (h : Heap)
    : Result Ev_System :=
  get_recorded_data_from_chargers controlled_site h.

Definition control_type_eqb (a b : SiteScheduleOptimzer) : bool :=
  match a, b with
  | BASE_OPTIMIZER, BASE_OPTIMIZER
  | EMISSION_OPTIMIZER, EMISSION_OPTIMIZER
  | PRICE_OPTIMIZER, PRICE_OPTIMIZER
  | PV_OPTIMIZER, PV_OPTIMIZER => true
  | _, _ => false
  end.

Definition is_None {A} (o : option A) : bool :=
  match o with None => true | Some _ => false end.

(** The test that opens [run_control_method]. *)
Definition profile_not_supplied (self : Optimized_Sites)
    (control_type : SiteScheduleOptimzer) : bool :=
  (is_None (carbon_dataf self)
   && control_type_eqb control_type EMISSION_OPTIMIZER)
  || (is_None (price_dataf self)
      && control_type_eqb control_type PRICE_OPTIMIZER)
  || (is_None (pv_dataf self)
      && control_type_eqb control_type PV_OPTIMIZER).

Section StrategyRunner.

Variable sort_values : bool → list Row → list Row.

Variable sim_Arguments : Binding.

Definition run_controller_optimizer (self : Optimized_Sites)
    (site_dataf : list Row) (chargers_dict : list (string * loc)) (h : Heap)
    : Result (list Row * list (string * list Z)) * Heap :=
  run_optimizer sort_values sim_Arguments chargers_dict site_dataf
    (max_import_demand self) h.

(** Returns [None] after the message when the strategy's frame is missing
    (the function falls off its end).  Otherwise the roster is copied, the
    optimizer run on the copy and the generated site returned; an exception
    raised on the way leaves the function with the heap as it is then. *)
Definition run_control_method (self : Optimized_Sites)
    (control_type : SiteScheduleOptimzer) (h : Heap)
    : Result (option Ev_System) * Heap :=
  if profile_not_supplied self control_type
  then (Returned None, h)
  else
    let '(copy_chargers, h1) := deepcopy (dict_of_chargers self) h in
    let site_dataf := site_dataf_creator self control_type in
    match run_controller_optimizer self site_dataf copy_chargers h1 with
    | (Raised e, h2) => (Raised e, h2)
    | (Returned _, h2) =>
        (gen_site ← generate_controlled_site self copy_chargers control_type h2;
         gen_site' ← site_charging_profiles gen_site h2;
         Returned (Some gen_site'),
         h2)
    end.

(** The four strategies in turn; the first that raises ends the call. *)
Definition run_all_control_methods (self : Optimized_Sites) (h : Heap)
    : Result (list (string * option Ev_System)) * Heap :=
  match run_control_method self BASE_OPTIMIZER h with
  | (Raised e, h1) => (Raised e, h1)
  | (Returned basic_site, h1) =>
  match run_control_method self EMISSION_OPTIMIZER h1 with
  | (Raised e, h2) => (Raised e, h2)
  | (Returned emissions_site, h2) =>
  match run_control_method self PRICE_OPTIMIZER h2 with
  | (Raised e, h3) => (Raised e, h3)
  | (Returned price_site, h3) =>
  match run_control_method self PV_OPTIMIZER h3 with
  | (Raised e, h4) => (Raised e, h4)
  | (Returned pv_site, h4) =>
      (Returned [("Basic", basic_site); ("Emission", emissions_site);
                 ("Price", price_site); ("PV", pv_site)], h4)
  end end end end.

End StrategyRunner.

(** ** A stable ranking

    A ranking by target that keeps rows of equal target in the order they
    came in; it stands for [sort_values] in the worked cases. *)

Definition target_leb (ascending : bool) (a b : Row) : bool :=
  if ascending then Qle_bool (target a) (target b)
  else Qle_bool (target b) (target a).

Definition stable_sort_values (ascending : bool) (l : list Row) : list Row :=
  isort_by (target_leb ascending) l.

(** ** The statements of the specification, for comparison *)

Definition Qsum (l : list Q) : Q := foldr Qplus 0%Q l.


(** The greedy walk of the specification over the ranked headrooms: a slot
    whose full headroom energy does not take the running total over the
    request gets its headroom; the first that would gets the remaining
    deficit, and the walk stops: the slots after it get zero. *)
Fixpoint greedy_walk (requested_energy total : Q) (headrooms : list Q) : list Q :=
  match headrooms with
  | [] => []
  | h :: rest =>
      if Qle_bool (total + h * POWER_TO_ENERGY_FACTOR) requested_energy
      then h :: greedy_walk requested_energy
                  (total + h * POWER_TO_ENERGY_FACTOR)%Q rest
      else ((requested_energy - total) / POWER_TO_ENERGY_FACTOR)%Q
             :: zeros rest
  end.

(** A value strictly inside the range of the 64-bit integers. *)
Definition fits_int64 (v : Q) : Prop :=
  (inject_Z INT64_MIN < v)%Q ∧ (v < inject_Z INT64_MAX)%Q.

(** [z] is [v] with its fraction dropped, toward zero: the floor of a value
    that is not negative, the ceiling of one that is not positive. *)
Definition truncation_of (v : Q) (z : Z) : Prop :=
  ((0 <= v)%Q → (inject_Z z <= v)%Q ∧ (v < inject_Z z + 1)%Q)
  ∧ ((v <= 0)%Q → (inject_Z z - 1 < v)%Q ∧ (v <= inject_Z z)%Q).

(** ** Auxiliary notions of the proofs *)

(** The mask [True] on the first [m] positions. *)
Definition prefix_mask {A} (m : nat) (l : list A) : list bool :=
  imap (λ i _, bool_decide (i < m)%nat) l.

(** How many running sums of the energies of [hs], started at [total], lie
    below [e]. *)
Fixpoint count_below (e total : Q) (hs : list Q) : nat :=
  match hs with
  | [] => 0%nat
  | h :: rest =>
      let c := (total + h * POWER_TO_ENERGY_FACTOR)%Q in
      ((if Qlt_bool c e then 1 else 0) + count_below e c rest)%nat
  end.

(** The values the loop of [calculate_optimized_charging_profile] returns
    when the name [sim_Arguments] is bound. *)
Fixpoint optimized_values (energy_required total : Q) (loads : list Q)
    : list Q :=
  match loads with
  | [] => []
  | p :: rest =>
      let energy := (p * POWER_TO_ENERGY_FACTOR)%Q in
      if Qgt_bool (total + energy) energy_required
      then
        ((energy_required - total) / POWER_TO_ENERGY_FACTOR)%Q
          :: optimized_values energy_required
               (total + (energy_required - total))%Q rest
      else p :: optimized_values energy_required (total + energy)%Q rest
  end.

(** The frame of [apply_new_charging_profile] before
    [to_frame().sort_index()], still in ranked order, when the name is
    bound. *)
Definition allocated_frame (dataf : list Row) (energy_required : Q) : list Row :=
  assign_profile (generate_filter dataf energy_required)
    (optimized_values energy_required 0
       (charger_load_profile <$> loc_mask (generate_filter dataf energy_required)
                                   dataf))
    dataf.

(** Every object of [h0] is in [h], unchanged. *)
Definition heap_incl (h0 h : Heap) : Prop :=
  (∀ l ev, evs h0 !! l = Some ev → evs h !! l = Some ev)
  ∧ (∀ c ch, chargers h0 !! c = Some ch → chargers h !! c = Some ch).

(** The chargers of [h] that are not objects of [h0] list no vehicle of
    [h0]. *)
Definition copies_closed (h0 h : Heap) : Prop :=
  ∀ c ch, chargers h0 !! c = None → chargers h !! c = Some ch →
    Forall (λ l, evs h0 !! l = None) (ev_list ch).

Definition run_inv (h0 h : Heap) : Prop :=
  heap_incl h0 h ∧ copies_closed h0 h.

Definition copy_inv (h0 : Heap) (st : CopyState) : Prop :=
  run_inv h0 (cs_heap st)
  ∧ (∀ l l', memo_evs st !! l = Some l' → evs h0 !! l' = None)
  ∧ (∀ c c', memo_chargers st !! c = Some c' → chargers h0 !! c' = None).

(** ** Sample data used by the worked cases *)

(** Monday 2023-01-02 is day 19359 after 1970-01-01. *)
Definition MONDAY : Z := 19359.
Definition SATURDAY : Z := 19364.

Definition default_schedule : Schedule := Schedule_init None None None.

(** A 60 kWh battery at half charge with target 0.65, as
    [create_single_EV] and [set_fleet_charging_amount] build it. *)
Definition fleet_battery : Battery :=
  Battery_init (1 # 2) (13 # 20) 60 default_schedule 0.

(** A battery built above its target. *)
Definition overfull_battery : Battery :=
  Battery_init (4 # 5) (1 # 2) 60 default_schedule 0.

(** A battery that loses a tenth of its charge per timestep. *)
Definition leaky_battery : Battery :=
  Battery_init (1 # 20) 1 60 default_schedule (1 # 10).

(** The 48 half-hour timesteps of a day. *)
Definition half_hour_index (day : Z) : list Z :=
  (λ k, Time.at_day day (k * 1800)) <$> seqZ 0 48.

(** A site that draws 5 kWh in every half hour of a Monday (10 kW), framed
    for the base strategy. *)
Definition sample_demand : list (Z * Q) :=
  (λ t, (t, 5%Q)) <$> half_hour_index MONDAY.

Definition sample_day : list Row := create_dataf_base sample_demand.

(** An import limit far above the site's load. *)
Definition loose_limits : list (Z * Q) :=
  (λ t, (t, 100%Q)) <$> half_hour_index MONDAY.

(** One vehicle on one charger, recorded over the Monday, and the site
    around them with no carbon, price or PV frame. *)
Definition sample_heap : Heap :=
  {| evs :=
       {[ 1%positive :=
            mkEV "EV_1" fleet_battery
              (TimeserieRecorder_init (half_hour_index MONDAY) EVData) ]};
     chargers :=
       {[ 1%positive :=
            mkCharger "Charger_1" LEVEL_2 7 [1%positive] 1
              (TimeserieRecorder_init (half_hour_index MONDAY) ChargerData)
              12000 120 10 30 ]} |}.

Definition sample_site : Optimized_Sites :=
  {| timesteps := half_hour_index MONDAY;
     site_electricity_demand := sample_demand;
     dict_of_chargers := [("Charger_1", 1%positive)];
     site_data_recorder :=
       TimeserieRecorder_init (half_hour_index MONDAY) SiteData;
     max_import_demand := loose_limits;
     carbon_dataf := None;
     price_dataf := None;
     pv_dataf := None |}.

(** Two half-hour timesteps of the Monday morning, and a vehicle recorded
    over them. *)
Definition sample_timesteps : list Z :=
  [Time.at_day MONDAY (Time.of_hm 9 0); Time.at_day MONDAY (Time.of_hm 9 30)].

Definition sample_ev : EV :=
  mkEV "EV_1" fleet_battery (TimeserieRecorder_init sample_timesteps EVData).

(** A vehicle whose battery was built with a negative state of charge. *)
Definition undercharged_ev : EV :=
  mkEV "EV_1" (Battery_init (- (3 # 2)) 1 60 default_schedule 0)
    (TimeserieRecorder_init sample_timesteps EVData).

(** The twelve half hours from 08:00 of the Monday, and a vehicle with the
    leaky battery recorded over them. *)
Definition leaky_timesteps : list Z :=
  (λ k, Time.at_day MONDAY (Time.of_hm 8 0 + k * 1800)) <$> seqZ 0 12.

Definition leaky_ev : EV :=
  mkEV "EV_1" leaky_battery (TimeserieRecorder_init leaky_timesteps EVData).

(** ** Further functions of the sources *)

(** [Battery.calculate_charging_time]: the dictionary from the position of a
    charger output in the list to the time that output needs, as the list of
    its items in key order.  A zero output raises [ZeroDivisionError] in
    Python; the quotient here is [Q]'s. *)
Definition calculate_charging_time (b : Battery) (chargers_max_output : list Q)
    : list (nat * Q) :=
  imap (λ index max_output,
          (index,
           ((target_soc b - current_soc b) * battery_size b / max_output)%Q))
    chargers_max_output.

(** [sim_functions.set_fleet_charging_amount]: every vehicle of the list gets
    the target [current_soc + charging_amount], written into the object. *)
Definition set_target_soc (b : Battery) (s : Q) : Battery :=
  {| current_soc := current_soc b;
     target_soc := s;
     battery_size := battery_size b;
     schedule := schedule b;
     battery_losses := battery_losses b;
     initial_soc := initial_soc b |}.

Definition set_fleet_charging_amount (list_evs : list loc)
    (charging_amount : Q) (h : Heap) : Heap :=
  foldl (λ h' l,
           set_evs h'
             (alter (λ temp_ev,
                       set_battery temp_ev
                         (set_target_soc (battery temp_ev)
                            (current_soc (battery temp_ev) + charging_amount)%Q))
                    l (evs h')))
    h list_evs.

(** [sim_functions.create_single_EV], given the recorder that
    [create_recorder] builds for the year. *)
Definition create_single_EV (name : string) (ev_data_recorder : TimeserieRecorder)
    (list_of_days : list Z) (size : Q) : EV :=
  let ev_schedule := Schedule_init None None (Some list_of_days) in
  let ev_battery := Battery_init (1 # 2) 1 size ev_schedule 0 in
  mkEV name ev_battery ev_data_recorder.

(** The same site on a Saturday, when no vehicle of the default schedule
    is plugged. *)
Definition saturday_day : list Row :=
  create_dataf_base ((λ t, (t, 5%Q)) <$> half_hour_index SATURDAY).

Definition saturday_limits : list (Z * Q) :=
  (λ t, (t, 100%Q)) <$> half_hour_index SATURDAY.

(** [l'] stands for [l] in a copy: it is [l] itself, or an object equal to
    the one at [l]. *)
Definition ev_copy_rel (h : Heap) (l l' : loc) : Prop :=
  l' = l ∨ ∃ ev, evs h !! l = Some ev ∧ evs h !! l' = Some ev.

(** The same for chargers: the copy has the fields of the original and
    lists the stand-ins of its vehicles. *)
Definition charger_copy_rel (h : Heap) (c c' : loc) : Prop :=
  c' = c
  ∨ ∃ ch evl', chargers h !! c = Some ch
      ∧ chargers h !! c' = Some (set_ev_list ch evl')
      ∧ Forall2 (ev_copy_rel h) (ev_list ch) evl'.

Definition memo_sound (st : CopyState) : Prop :=
  (∀ l l', memo_evs st !! l = Some l' → ev_copy_rel (cs_heap st) l l')
  ∧ (∀ c c', memo_chargers st !! c = Some c' →
       charger_copy_rel (cs_heap st) c c').

(* ================================================================== *)
(** * Properties *)
(* ================================================================== *)

(** ** Comparison operators *)

Lemma Qgt_bool_true a b : Qgt_bool a b = true <-> (b < a)%Q.
Proof.
  unfold Qgt_bool. rewrite negb_true_iff.
  destruct (Qle_bool a b) eqn:E.
  - apply Qle_bool_iff in E. split; [discriminate | intros H; lra].
  - split; [intros _ | reflexivity].
    apply Qnot_le_lt. intros H. apply Qle_bool_iff in H. congruence.
Qed.

Lemma Qgt_bool_false a b : Qgt_bool a b = false <-> (a <= b)%Q.
Proof.
  unfold Qgt_bool. rewrite negb_false_iff. apply Qle_bool_iff.
Qed.

Lemma Qlt_bool_true a b : Qlt_bool a b = true <-> (a < b)%Q.
Proof. unfold Qlt_bool. apply (Qgt_bool_true b a). Qed.

Lemma Qlt_bool_false a b : Qlt_bool a b = false <-> (b <= a)%Q.
Proof. unfold Qlt_bool. apply (Qgt_bool_false b a). Qed.

Lemma Qle_bool_false a b : Qle_bool a b = false <-> (b < a)%Q.
Proof.
  rewrite <- Qgt_bool_true. unfold Qgt_bool. rewrite negb_true_iff. reflexivity.
Qed.

Lemma Qeq_bool_false a b : Qeq_bool a b = false <-> ~ (a == b)%Q.
Proof.
  split.
  - intros E H. apply Qeq_bool_iff in H. congruence.
  - intros H. destruct (Qeq_bool a b) eqn:E; [|reflexivity].
    apply Qeq_bool_iff in E. contradiction.
Qed.

(** ** Schedule *)

Lemma is_plugged_monday_9 :
  is_plugged default_schedule (Time.at_day MONDAY (Time.of_hm 9 0)) = true.
Proof. reflexivity. Qed.

Lemma is_plugged_monday_18 :
  is_plugged default_schedule (Time.at_day MONDAY (Time.of_hm 18 0)) = false.
Proof. reflexivity. Qed.

Lemma is_plugged_saturday_9 :
  is_plugged default_schedule (Time.at_day SATURDAY (Time.of_hm 9 0)) = false.
Proof. reflexivity. Qed.

(** [is_plugged] holds exactly on a listed weekday between arrival and
    departure, both ends included. *)
Lemma is_plugged_spec (s : Schedule) (t : Z) :
  is_plugged s t = true <->
  Time.weekday t ∈ list_days s
  ∧ arrival_time s <= Time.time t <= departure_time s.
Proof.
  unfold is_plugged. case_bool_decide as Hd.
  - rewrite andb_true_iff, !Z.leb_le. tauto.
  - split; [discriminate | tauto].
Qed.

(** ** Battery: the constructor *)

Lemma clamp_le_1 (x : Q) : ((if Qgt_bool x 1 then 1 else x) <= 1)%Q.
Proof.
  destruct (Qgt_bool x 1) eqn:E; [lra |]. now apply Qgt_bool_false in E.
Qed.

(** C7 (as amended).  The constructor caps both states of charge at 1 and
    does nothing else to them: a value of at most 1, negative ones
    included, is kept as given, a value above 1 becomes 1.  [initial_soc]
    is the capped [current_soc]. *)
Theorem Battery_init_clamps_above (current target size : Q) (sch : Schedule)
    (losses : Q) :
  let b := Battery_init current target size sch losses in
  ((current_soc b <= 1)%Q ∧ (target_soc b <= 1)%Q)
  ∧ initial_soc b = current_soc b
  ∧ current_soc b = (if Qgt_bool current 1 then 1%Q else current)
  ∧ target_soc b = (if Qgt_bool target 1 then 1%Q else target)
  ∧ battery_size b = size ∧ schedule b = sch ∧ battery_losses b = losses.
Proof.
  cbn. repeat split; apply clamp_le_1.
Qed.

(** C7, the claim as stated fails: a negative state of charge passes the
    constructor unchanged. *)
Lemma Battery_init_keeps_negative :
  let b := Battery_init (- (1 # 2)) (- (1 # 5)) 60 default_schedule 0 in
  (current_soc b < 0)%Q ∧ (target_soc b < 0)%Q
  ∧ current_soc b = (- (1 # 2))%Q ∧ target_soc b = (- (1 # 5))%Q.
Proof. cbn. repeat split. Qed.

(** ** Battery: one step *)

Lemma calculate_losses_soc (b : Battery) :
  current_soc (calculate_losses b) = (current_soc b - battery_losses b)%Q.
Proof. reflexivity. Qed.

Lemma run_model_frame (b : Battery) (t : Z) (e : Q) :
  let b' := snd (run_model b t e) in
  target_soc b' = target_soc b ∧ battery_size b' = battery_size b
  ∧ schedule b' = schedule b ∧ battery_losses b' = battery_losses b
  ∧ initial_soc b' = initial_soc b.
Proof.
  unfold run_model, battery_is_plugged, battery_is_charging. cbn.
  repeat match goal with |- context [if ?c then _ else _] => destruct c end;
    cbn; repeat split.
Qed.

(** C3.  One step of [run_model]: the loss is subtracted first in every
    case; unplugged, the state of charge is reset to [initial_soc] and
    nothing is taken; plugged at the target, nothing is taken and the state
    of charge (after the loss) stays; plugged below the target, the offer is
    taken whole and the state of charge rises by it over the capacity unless
    that passes [capacity * target_soc], in which case what is taken is the
    target energy minus the stored energy and the state of charge is the
    target.  The other fields never change. *)
Theorem run_model_transition (b : Battery) (t : Z) (e : Q) :
  let s1 := (current_soc b - battery_losses b)%Q in
  let consumed := fst (run_model b t e) in
  let b' := snd (run_model b t e) in
  (run_model b t e = battery_is_plugged (calculate_losses b) t e
   ∧ current_soc (calculate_losses b) = s1)
  ∧ (is_plugged (schedule b) t = false →
       consumed = 0%Q ∧ current_soc b' = initial_soc b)
  ∧ (is_plugged (schedule b) t = true → (s1 == target_soc b)%Q →
       consumed = 0%Q ∧ current_soc b' = s1)
  ∧ (is_plugged (schedule b) t = true → (s1 < target_soc b)%Q →
       ((s1 * battery_size b + e <= battery_size b * target_soc b)%Q →
          consumed = e
          ∧ current_soc b' = ((s1 * battery_size b + e) / battery_size b)%Q)
       ∧ ((battery_size b * target_soc b < s1 * battery_size b + e)%Q →
          consumed = (battery_size b * target_soc b - battery_size b * s1)%Q
          ∧ consumed = requested_energy (calculate_losses b)
          ∧ current_soc b' = target_soc b))
  ∧ (target_soc b' = target_soc b ∧ battery_size b' = battery_size b
     ∧ schedule b' = schedule b ∧ battery_losses b' = battery_losses b
     ∧ initial_soc b' = initial_soc b).
Proof.
  intros s1 consumed b'.
  split; [split; reflexivity |].
  split; [| split; [| split; [| apply run_model_frame]]].
  - intros Hp. subst consumed b'. unfold run_model, battery_is_plugged.
    cbn. rewrite Hp. split; reflexivity.
  - intros Hp Heq. subst consumed b'. unfold run_model, battery_is_plugged.
    cbn. rewrite Hp. unfold target_charge_achieved. cbn.
    apply Qeq_bool_iff in Heq. fold s1. rewrite Heq. cbn. split; reflexivity.
  - intros Hp Hlt.
    assert (Hne : Qeq_bool s1 (target_soc b) = false).
    { apply Qeq_bool_false. intros H. rewrite H in Hlt. lra. }
    subst consumed b'. unfold run_model, battery_is_plugged.
    cbn. rewrite Hp. unfold target_charge_achieved. cbn. fold s1.
    rewrite Hne. cbn. unfold battery_is_charging. cbn. fold s1.
    split.
    + intros Hle. apply Qle_bool_iff in Hle. rewrite Hle. cbn.
      split; reflexivity.
    + intros Hgt. apply Qle_bool_false in Hgt. rewrite Hgt. cbn.
      repeat split.
Qed.

(** What [run_model] returns, case by case. *)
Lemma run_model_cases (b : Battery) (t : Z) (e : Q) :
  let s1 := (current_soc b - battery_losses b)%Q in
  let r := run_model b t e in
  (is_plugged (schedule b) t = false
   ∧ fst r = 0%Q ∧ current_soc (snd r) = initial_soc b)
  ∨ (is_plugged (schedule b) t = true ∧ (s1 == target_soc b)%Q
     ∧ fst r = 0%Q ∧ current_soc (snd r) = s1)
  ∨ (is_plugged (schedule b) t = true ∧ ¬ (s1 == target_soc b)%Q
     ∧ (s1 * battery_size b + e <= battery_size b * target_soc b)%Q
     ∧ fst r = e
     ∧ current_soc (snd r) = ((s1 * battery_size b + e) / battery_size b)%Q)
  ∨ (is_plugged (schedule b) t = true ∧ ¬ (s1 == target_soc b)%Q
     ∧ (battery_size b * target_soc b < s1 * battery_size b + e)%Q
     ∧ fst r = (battery_size b * target_soc b - battery_size b * s1)%Q
     ∧ current_soc (snd r) = target_soc b).
Proof.
  intros s1 r. subst r. unfold run_model, battery_is_plugged.
  cbn. fold s1.
  destruct (is_plugged (schedule b) t) eqn:Hp; [| left; auto].
  right. unfold target_charge_achieved. cbn. fold s1.
  destruct (Qeq_bool s1 (target_soc b)) eqn:Heq; cbn.
  - left. apply Qeq_bool_iff in Heq. auto.
  - right. apply Qeq_bool_false in Heq.
    unfold battery_is_charging. cbn. fold s1.
    destruct (Qle_bool (s1 * battery_size b + e)
                (battery_size b * target_soc b)) eqn:Hle; cbn.
    + left. apply Qle_bool_iff in Hle. auto.
    + right. apply Qle_bool_false in Hle. auto.
Qed.

(** The bound the callers expect of the returned energy holds when the
    battery is not above its target after the loss. *)
Lemma run_model_consumed_bounds (b : Battery) (t : Z) (e : Q) :
  (0 <= e)%Q → (0 <= battery_size b)%Q →
  (current_soc b - battery_losses b <= target_soc b)%Q →
  (0 <= fst (run_model b t e) <= e)%Q.
Proof.
  intros He Hs Hle.
  destruct (run_model_cases b t e)
    as [(_ & -> & _) | [(_ & _ & -> & _) | [(_ & _ & _ & -> & _)
       | (_ & _ & Hgt & -> & _)]]]; try lra.
  assert (0 <= battery_size b * (target_soc b
              - (current_soc b - battery_losses b)))%Q
    by (apply Qmult_le_0_compat; lra).
  split; lra.
Qed.

(** C5, evaluated where the code breaks the claim: a battery above its
    target is "not at the target" for [target_charge_achieved], so a plugged
    step takes the clipping branch and returns the negative difference. *)
Theorem run_model_returns_negative :
  let t := Time.at_day MONDAY (Time.of_hm 9 0) in
  let r := run_model overfull_battery t 1 in
  is_plugged (schedule overfull_battery) t = true
  ∧ (0 < 1)%Q
  ∧ (fst r == - (18))%Q ∧ (fst r < 0)%Q
  ∧ (current_soc (snd r) == 1 # 2)%Q.
Proof. vm_compute. repeat split. Qed.

(** ** Battery: a sequence of steps *)

Lemma run_steps_cons (b : Battery) (t : Z) (e : Q) (rest : list (Z * Q)) :
  run_steps b ((t, e) :: rest)
  = snd (run_model b t e) :: run_steps (snd (run_model b t e)) rest.
Proof. reflexivity. Qed.

Lemma run_model_soc_le_1 (b : Battery) (t : Z) (e : Q) :
  (0 < battery_size b)%Q → (initial_soc b <= 1)%Q → (target_soc b <= 1)%Q →
  (current_soc (snd (run_model b t e)) <= 1)%Q.
Proof.
  intros Hs Hi Ht.
  destruct (run_model_cases b t e)
    as [(_ & _ & ->) | [(_ & Heq & _ & ->) | [(_ & _ & Hle & _ & ->)
       | (_ & _ & _ & _ & ->)]]]; try lra.
  apply Qle_shift_div_r; [exact Hs |].
  assert (battery_size b * target_soc b <= battery_size b * 1)%Q
    by (apply Qmult_le_l; assumption).
  lra.
Qed.

Lemma run_model_soc_ge_0 (b : Battery) (t : Z) (e : Q) :
  (0 < battery_size b)%Q → (0 <= initial_soc b)%Q → (0 <= target_soc b)%Q →
  (battery_losses b <= 0)%Q → (0 <= e)%Q → (0 <= current_soc b)%Q →
  (0 <= current_soc (snd (run_model b t e)))%Q.
Proof.
  intros Hs Hi Ht Hl He Hc.
  destruct (run_model_cases b t e)
    as [(_ & _ & ->) | [(_ & Heq & _ & ->) | [(_ & _ & Hle & _ & ->)
       | (_ & _ & _ & _ & ->)]]]; try lra.
  apply Qle_shift_div_l; [exact Hs |].
  assert (0 <= (current_soc b - battery_losses b) * battery_size b)%Q
    by (apply Qmult_le_0_compat; lra).
  lra.
Qed.

Lemma run_steps_soc_le_1 (steps : list (Z * Q)) (b : Battery) :
  (0 < battery_size b)%Q → (initial_soc b <= 1)%Q → (target_soc b <= 1)%Q →
  Forall (λ b', (current_soc b' <= 1)%Q) (run_steps b steps).
Proof.
  revert b. induction steps as [| [t e] rest IH]; intros b Hs Hi Ht.
  - constructor.
  - rewrite run_steps_cons.
    destruct (run_model_frame b t e) as (Et & Es & _ & _ & Ei).
    constructor.
    + now apply run_model_soc_le_1.
    + apply IH; cbn in *; rewrite ?Et, ?Es, ?Ei; assumption.
Qed.

Lemma run_steps_soc_ge_0 (steps : list (Z * Q)) (b : Battery) :
  (0 < battery_size b)%Q → (0 <= initial_soc b)%Q → (0 <= target_soc b)%Q →
  (battery_losses b <= 0)%Q → (0 <= current_soc b)%Q →
  Forall (λ s, (0 <= snd s)%Q) steps →
  Forall (λ b', (0 <= current_soc b')%Q) (run_steps b steps).
Proof.
  revert b. induction steps as [| [t e] rest IH];
    intros b Hs Hi Ht Hl Hc Hsteps.
  - constructor.
  - rewrite run_steps_cons.
    destruct (run_model_frame b t e) as (Et & Es & _ & El & Ei).
    apply Forall_cons in Hsteps as [He Hrest]. cbn in He.
    assert (H0 : (0 <= current_soc (snd (run_model b t e)))%Q)
      by now apply run_model_soc_ge_0.
    constructor; [exact H0 |].
    apply IH; cbn in *; rewrite ?Et, ?Es, ?Ei, ?El; assumption.
Qed.

Lemma Battery_init_fields (current target size : Q) (sch : Schedule)
    (losses : Q) :
  let b := Battery_init current target size sch losses in
  ((current_soc b <= 1)%Q ∧ (target_soc b <= 1)%Q)
  ∧ initial_soc b = current_soc b
  ∧ current_soc b = (if Qgt_bool current 1 then 1%Q else current)
  ∧ target_soc b = (if Qgt_bool target 1 then 1%Q else target)
  ∧ battery_size b = size ∧ schedule b = sch ∧ battery_losses b = losses.
Proof.
  cbn. repeat split; apply clamp_le_1.
Qed.

(** C6 (as amended).  For a battery of positive capacity, whatever the loss
    rate and the offers, the state of charge is at most 1 after every step;
    it is also at least 0 after every step when the constructor was given
    non-negative states of charge, the loss rate is not positive (0 is the
    default) and no offer is negative. *)
Theorem soc_bounds_over_steps (current target size : Q) (sch : Schedule)
    (losses : Q) (steps : list (Z * Q)) :
  (0 < size)%Q →
  let b := Battery_init current target size sch losses in
  Forall (λ b', (current_soc b' <= 1)%Q) (run_steps b steps)
  ∧ ((0 <= current)%Q → (0 <= target)%Q → (losses <= 0)%Q →
     Forall (λ s, (0 <= snd s)%Q) steps →
     Forall (λ b', (0 <= current_soc b' <= 1)%Q) (run_steps b steps)).
Proof.
  intros Hs b.
  destruct (Battery_init_fields current target size sch losses)
    as ((Hc1 & Ht1) & Hi & Hc & Ht & Hsz & _ & Hl). fold b in Hc1, Ht1, Hi, Hc, Ht, Hsz, Hl.
  assert (Hle : Forall (λ b', (current_soc b' <= 1)%Q) (run_steps b steps)).
  { apply run_steps_soc_le_1; rewrite ?Hsz, ?Hi; assumption. }
  split; [exact Hle |].
  intros Hc0 Ht0 Hl0 Hsteps.
  assert (Hge : Forall (λ b', (0 <= current_soc b')%Q) (run_steps b steps)).
  { apply run_steps_soc_ge_0; rewrite ?Hsz, ?Hi, ?Hl; try assumption.
    - rewrite Hc. destruct (Qgt_bool current 1); lra.
    - rewrite Ht. destruct (Qgt_bool target 1); lra.
    - rewrite Hc. destruct (Qgt_bool current 1); lra. }
  rewrite Forall_forall in *. intros x Hx. split; auto.
Qed.

Lemma soc_bounds_over_steps_witness :
  let steps := [(Time.at_day MONDAY (Time.of_hm 9 0), 7 # 2);
                (Time.at_day MONDAY (Time.of_hm 9 30), 7 # 2);
                (Time.at_day MONDAY (Time.of_hm 10 0), 7 # 2);
                (Time.at_day MONDAY (Time.of_hm 18 0), 7 # 2)] in
  (0 < 60)%Q
  ∧ Forall (λ b', (current_soc b' <= 1)%Q) (run_steps fleet_battery steps)
  ∧ Forall (λ b', (0 <= current_soc b' <= 1)%Q) (run_steps fleet_battery steps).
Proof.
  intros steps.
  assert (H60 : (0 < 60)%Q) by reflexivity.
  pose proof (soc_bounds_over_steps (1 # 2) (13 # 20) 60 default_schedule 0
                steps H60) as [H1 H2].
  split; [exact H60 |]. split; [exact H1 |].
  apply H2; try (cbn; discriminate).
  repeat constructor; cbn; discriminate.
Defined.

(** C6, the claim as stated fails: with a loss rate of 0.1 per step a
    battery at 0.05 is below zero after one plugged step without offer. *)
Lemma soc_drops_below_zero :
  let t := Time.at_day MONDAY (Time.of_hm 9 0) in
  ∃ b', run_steps leaky_battery [(t, 0%Q)] = [b']
        ∧ (current_soc b' == - (1 # 20))%Q ∧ (current_soc b' < 0)%Q.
Proof. eexists. split; [reflexivity |]. vm_compute. split; reflexivity. Qed.

(** ** TimeserieRecorder *)

Lemma astype_int64_small (v : Q) : (-1 < v)%Q → (v < 1)%Q → astype_int64 v = 0.
Proof.
  destruct v as [n d]. unfold Qlt, astype_int64. cbn. intros Hlo Hhi.
  replace (n `quot` Z.pos d) with 0; [reflexivity |].
  symmetry. apply Z.quot_small_iff; lia.
Qed.

Lemma astype_int64_inject_Z (z : Z) :
  INT64_MIN <= z <= INT64_MAX → astype_int64 (inject_Z z) = z.
Proof.
  intros [Hlo Hhi]. unfold astype_int64. cbn. rewrite Z.quot_1_r.
  apply Z.leb_le in Hlo, Hhi. now rewrite Hlo, Hhi.
Qed.

(** The stored integer is the value with its fraction dropped: it lies
    between 0 and the value. *)
Lemma astype_int64_truncates (v : Q) :
  let z := astype_int64 v in
  INT64_MIN < Qnum v `quot` Z.pos (Qden v) <= INT64_MAX →
  ((0 <= v)%Q → (inject_Z z <= v)%Q ∧ (v < inject_Z z + 1)%Q)
  ∧ ((v <= 0)%Q → (v <= inject_Z z)%Q ∧ (inject_Z z - 1 < v)%Q).
Proof.
  destruct v as [n d]. cbn. intros [Hlo Hhi].
  unfold astype_int64. cbn.
  assert (E1 : (INT64_MIN <=? n `quot` Z.pos d) = true) by (apply Z.leb_le; lia).
  assert (E2 : (n `quot` Z.pos d <=? INT64_MAX) = true) by (apply Z.leb_le; lia).
  rewrite E1, E2. cbn.
  pose proof (Z.quot_rem' n (Z.pos d)) as Hqr.
  split; intros Hs; unfold Qle, Qlt, inject_Z in *; cbn in *.
  - assert (0 <= n) by lia.
    pose proof (Z.rem_bound_pos n (Z.pos d) ltac:(lia) ltac:(lia)). nia.
  - assert (n <= 0) by lia.
    pose proof (Z.rem_bound_pos_neg n (Z.pos d) ltac:(lia) ltac:(lia)). nia.
Qed.

Lemma loc_assign_notin (ix labels : list Z) (values : list Z) (col : gmap Z Z)
    (t : Z) :
  t ∉ labels → loc_assign ix labels values col !! t = col !! t.
Proof.
  revert values col. induction labels as [| t' labels IH]; intros values col Hn.
  - reflexivity.
  - destruct values as [| v values]; [reflexivity |]. cbn.
    apply not_elem_of_cons in Hn as [Hne Hn].
    rewrite IH by exact Hn.
    case_bool_decide; [| reflexivity]. now rewrite lookup_insert_ne.
Qed.

Lemma loc_assign_lookup (ix labels : list Z) (values : list Z) (col : gmap Z Z)
    (i : nat) (t v : Z) :
  NoDup labels → t ∈ ix → labels !! i = Some t → values !! i = Some v →
  loc_assign ix labels values col !! t = Some v.
Proof.
  revert values col i.
  induction labels as [| t' labels IH]; intros values col i Hnd Hin Hl Hv.
  - discriminate.
  - destruct values as [| v' values]; [discriminate |].
    apply NoDup_cons in Hnd as [Hnotin Hnd]. cbn.
    destruct i as [| i]; cbn in Hl, Hv.
    + injection Hl as ->. injection Hv as ->.
      rewrite loc_assign_notin by exact Hnotin.
      rewrite bool_decide_eq_true_2 by exact Hin.
      apply lookup_insert_eq.
    + eapply IH; eauto.
Qed.

(** What [record_batch_data] leaves in a cell it was given a value for. *)
Lemma record_batch_data_cell (r : TimeserieRecorder) (labels : list Z)
    (values : list Q) (col_name : string) (i : nat) (t : Z) (v : Q) :
  NoDup labels → t ∈ index r → labels !! i = Some t → values !! i = Some v →
  cell (record_batch_data r labels values col_name) col_name t
  = Some (astype_int64 v).
Proof.
  intros Hnd Hin Hl Hv. unfold cell, record_batch_data. cbn.
  rewrite lookup_insert_eq. cbn.
  eapply loc_assign_lookup; eauto.
  rewrite list_lookup_fmap, Hv. reflexivity.
Qed.

Lemma record_batch_data_other (r : TimeserieRecorder) (labels : list Z)
    (values : list Q) (col_name other : string) (t : Z) :
  other ≠ col_name →
  cell (record_batch_data r labels values col_name) other t = cell r other t.
Proof.
  intros Hne. unfold cell, record_batch_data. cbn.
  now rewrite lookup_insert_ne.
Qed.

Lemma record_batch_data_index (r : TimeserieRecorder) (labels : list Z)
    (values : list Q) (col_name : string) :
  index (record_batch_data r labels values col_name) = index r.
Proof. reflexivity. Qed.

Lemma charging_loop_soc_length (timesteps : list Z) (b : Battery)
    (outputs : list Q) :
  length (soc_arr (snd (charging_loop b timesteps outputs))) = length timesteps.
Proof.
  revert b outputs. induction timesteps as [| t ts IH]; intros b outputs.
  - reflexivity.
  - cbn. destruct (run_model b t (hd 0%Q outputs)) as [consumed b'] eqn:E.
    specialize (IH b' (tail outputs)).
    destruct (charging_loop b' ts (tail outputs)) as [b'' tr]. cbn in *.
    now rewrite IH.
Qed.

Lemma charging_loop_lengths (timesteps : list Z) (b : Battery)
    (outputs : list Q) :
  let tr := snd (charging_loop b timesteps outputs) in
  length (energy_input_arr tr) = length timesteps
  ∧ length (plugged_flag_arr tr) = length timesteps.
Proof.
  revert b outputs. induction timesteps as [| t ts IH]; intros b outputs.
  - split; reflexivity.
  - cbn. destruct (run_model b t (hd 0%Q outputs)) as [consumed b'] eqn:E.
    specialize (IH b' (tail outputs)).
    destruct (charging_loop b' ts (tail outputs)) as [b'' tr]. cbn in *.
    destruct IH as [-> ->]. split; reflexivity.
Qed.

(** A value strictly inside the 64-bit range has its integer part there. *)
Lemma fits_int64_quot (v : Q) :
  fits_int64 v → INT64_MIN < Qnum v `quot` Z.pos (Qden v) <= INT64_MAX.
Proof.
  destruct v as [n d]. unfold fits_int64, Qlt, inject_Z. cbn.
  assert (Hl : INT64_MIN < 0) by reflexivity.
  assert (Hh : 0 <= INT64_MAX) by discriminate.
  revert Hl Hh. generalize INT64_MIN INT64_MAX. intros lo hi Hl Hh [Hlo Hhi].
  pose proof (Z.quot_rem' n (Z.pos d)) as Hqr.
  destruct (Z.le_gt_cases 0 n) as [Hn | Hn].
  - pose proof (Z.rem_bound_pos n (Z.pos d) ltac:(lia) ltac:(lia)).
    assert (0 <= n `quot` Z.pos d) by (apply Z.quot_pos; lia).
    split; [lia | nia].
  - pose proof (Z.rem_bound_pos_neg n (Z.pos d) ltac:(lia) ltac:(lia)).
    assert (n `quot` Z.pos d <= 0).
    { pose proof (Z.quot_opp_l n (Z.pos d) ltac:(lia)).
      pose proof (Z.quot_pos (- n) (Z.pos d) ltac:(lia) ltac:(lia)). lia. }
    split; [nia | lia].
Qed.

Lemma astype_int64_truncation (v : Q) :
  fits_int64 v → truncation_of v (astype_int64 v).
Proof.
  intros Hv. apply fits_int64_quot in Hv.
  destruct (astype_int64_truncates v Hv) as [Hpos Hneg].
  split; intros H; [apply Hpos | apply and_comm, Hneg]; exact H.
Qed.

(** What [record_batch_data] leaves in a cell, against the value it was
    given for it. *)
Lemma record_batch_data_truncates (r : TimeserieRecorder) (labels : list Z)
    (values : list Q) (col_name : string) (i : nat) (t : Z) (v : Q) :
  NoDup labels → t ∈ index r → labels !! i = Some t → values !! i = Some v →
  ∃ z, cell (record_batch_data r labels values col_name) col_name t = Some z
       ∧ (fits_int64 v → truncation_of v z)
       ∧ ((-1 < v)%Q → (v < 1)%Q → z = 0).
Proof.
  intros Hnd Hin Hl Hv. exists (astype_int64 v).
  split; [eapply record_batch_data_cell; eauto |].
  split; [apply astype_int64_truncation | apply astype_int64_small].
Qed.

(** C10 (as amended).  [record_batch_data] stores every value it is given
    as a whole number: the value with its fraction dropped toward zero, for
    any value inside the 64-bit range.  So every series
    [EV.charging_profile] records (state of charge, energy input, plugged
    flag) holds whole numbers, and a state of charge strictly between -1 and
    1 is recorded as 0, in particular any state of charge in [0, 1); a
    state of charge of 1 or more, or of -1 or less, is recorded as its
    integer part. *)
Theorem recorded_values_are_truncated (ev : EV) (timesteps : list Z)
    (outputs : list Q) (i : nat) (t : Z) :
  NoDup timesteps → t ∈ index (ev_data_recorder ev) →
  timesteps !! i = Some t →
  let tr := snd (charging_loop (battery ev) timesteps outputs) in
  let rec' :=
    ev_data_recorder (snd (EV_charging_profile ev timesteps outputs)) in
  (∀ r labels values col_name j u v,
     NoDup labels → u ∈ index r →
     labels !! j = Some u → values !! j = Some v →
     ∃ z, cell (record_batch_data r labels values col_name) col_name u = Some z
          ∧ (fits_int64 v → truncation_of v z))
  ∧ ∃ s e p zs ze zp,
      (soc_arr tr !! i = Some s ∧ energy_input_arr tr !! i = Some e
       ∧ plugged_flag_arr tr !! i = Some p)
      ∧ (cell rec' SOC t = Some zs ∧ cell rec' ENERGY_INPUT t = Some ze
         ∧ cell rec' PLUGGED t = Some zp)
      ∧ (fits_int64 s → truncation_of s zs)
      ∧ (fits_int64 e → truncation_of e ze)
      ∧ (fits_int64 p → truncation_of p zp)
      ∧ ((-1 < s)%Q → (s < 1)%Q → zs = 0).
Proof.
  intros Hnd Hin Hl tr rec'. split.
  { intros r labels values col_name j u v H1 H2 H3 H4.
    destruct (record_batch_data_truncates r labels values col_name j u v
                H1 H2 H3 H4) as (z & Hz & Ht & _).
    eauto. }
  pose proof (lookup_lt_Some _ _ _ Hl) as Hi.
  destruct (charging_loop_lengths timesteps (battery ev) outputs)
    as [Hlen_e Hlen_p].
  fold tr in Hlen_e, Hlen_p.
  destruct (lookup_lt_is_Some_2 (soc_arr tr) i) as [s Hs].
  { subst tr. now rewrite charging_loop_soc_length. }
  destruct (lookup_lt_is_Some_2 (energy_input_arr tr) i) as [e He].
  { now rewrite Hlen_e. }
  destruct (lookup_lt_is_Some_2 (plugged_flag_arr tr) i) as [p Hp].
  { now rewrite Hlen_p. }
  subst rec'. unfold EV_charging_profile. fold tr.
  destruct (charging_loop (battery ev) timesteps outputs) as [b' tr'] eqn:E.
  cbn [snd] in tr. subst tr. cbn [snd ev_data_recorder set_ev_data_recorder].
  set (r1 := record_batch_data (ev_data_recorder ev) timesteps (soc_arr tr') SOC).
  set (r2 := record_batch_data r1 timesteps (energy_input_arr tr') ENERGY_INPUT).
  destruct (record_batch_data_truncates (ev_data_recorder ev) timesteps
              (soc_arr tr') SOC i t s Hnd Hin Hl Hs) as (zs & Hzs & Hts & H0).
  destruct (record_batch_data_truncates r1 timesteps
              (energy_input_arr tr') ENERGY_INPUT i t e Hnd Hin Hl He)
    as (ze & Hze & Hte & _).
  destruct (record_batch_data_truncates r2 timesteps
              (plugged_flag_arr tr') PLUGGED i t p Hnd Hin Hl Hp)
    as (zp & Hzp & Htp & _).
  exists s, e, p, zs, ze, zp.
  split; [auto |]. split; [| auto].
  subst r2 r1. split; [| split].
  - rewrite !record_batch_data_other by discriminate. exact Hzs.
  - rewrite record_batch_data_other by discriminate. exact Hze.
  - exact Hzp.
Qed.

Lemma recorded_values_are_truncated_witness :
  let t := Time.at_day MONDAY (Time.of_hm 9 0) in
  let outputs := [7 # 2; 7 # 2]%Q in
  let tr := snd (charging_loop (battery sample_ev) sample_timesteps outputs) in
  let rec' :=
    ev_data_recorder
      (snd (EV_charging_profile sample_ev sample_timesteps outputs)) in
  (∀ r labels values col_name j u v,
     NoDup labels → u ∈ index r →
     labels !! j = Some u → values !! j = Some v →
     ∃ z, cell (record_batch_data r labels values col_name) col_name u = Some z
          ∧ (fits_int64 v → truncation_of v z))
  ∧ ∃ s e p zs ze zp,
      (soc_arr tr !! 0%nat = Some s ∧ energy_input_arr tr !! 0%nat = Some e
       ∧ plugged_flag_arr tr !! 0%nat = Some p)
      ∧ (cell rec' SOC t = Some zs ∧ cell rec' ENERGY_INPUT t = Some ze
         ∧ cell rec' PLUGGED t = Some zp)
      ∧ (fits_int64 s → truncation_of s zs)
      ∧ (fits_int64 e → truncation_of e ze)
      ∧ (fits_int64 p → truncation_of p zp)
      ∧ ((-1 < s)%Q → (s < 1)%Q → zs = 0).
Proof.
  intros t outputs.
  apply (recorded_values_are_truncated sample_ev sample_timesteps outputs 0 t).
  - apply (bool_decide_unpack (NoDup sample_timesteps)). vm_compute. exact I.
  - apply (bool_decide_unpack (t ∈ index (ev_data_recorder sample_ev))).
    vm_compute. exact I.
  - reflexivity.
Defined.

(** A plugged step of the sample battery: the state of charge after it is
    0.5583..., the recorder holds 0; 3.5 kWh are recorded as 3. *)
Lemma sample_recorded_soc :
  let outputs := [7 # 2; 7 # 2]%Q in
  let tr := snd (charging_loop (battery sample_ev) sample_timesteps outputs) in
  let ev' := snd (EV_charging_profile sample_ev sample_timesteps outputs) in
  Forall2 Qeq (soc_arr tr) [67 # 120; 37 # 60]%Q
  ∧ column_values (ev_data_recorder ev') SOC = [0; 0]
  ∧ column_values (ev_data_recorder ev') ENERGY_INPUT = [3; 3]
  ∧ column_values (ev_data_recorder ev') PLUGGED = [1; 1].
Proof.
  split; [| vm_compute; auto].
  vm_compute. repeat constructor.
Qed.

(** C10, the claim as stated fails: a state of charge below 1 is not always
    recorded as 0.  The constructor keeps a negative state of charge, and
    losses take a state of charge below zero; at -1.5 and at -1.15 the
    recorder holds -1. *)
Lemma negative_soc_recorded_as_minus_one :
  let tr (ev : EV) (ts : list Z) :=
    snd (charging_loop (battery ev) ts (zeros ts)) in
  let recorded (ev : EV) (ts : list Z) :=
    column_values
      (ev_data_recorder (snd (EV_charging_profile ev ts (zeros ts)))) SOC in
  (Forall2 Qeq (soc_arr (tr undercharged_ev sample_timesteps))
     [- (3 # 2); - (3 # 2)]%Q
   ∧ recorded undercharged_ev sample_timesteps = [-1; -1])
  ∧ (Forall2 Qeq (drop 10 (soc_arr (tr leaky_ev leaky_timesteps)))
       [- (21 # 20); - (23 # 20)]%Q
     ∧ drop 10 (recorded leaky_ev leaky_timesteps) = [-1; -1])
  ∧ (- (3 # 2) < 1)%Q ∧ (- (23 # 20) < 1)%Q.
Proof.
  split; [| split; [| split; reflexivity]].
  - split; [| vm_compute; reflexivity].
    vm_compute. repeat constructor.
  - split; [| vm_compute; reflexivity].
    vm_compute. repeat constructor.
Qed.

(** ** The daily optimizer: lists and masks *)

Lemma pef_div (x : Q) : (x / POWER_TO_ENERGY_FACTOR == 2 * x)%Q.
Proof.
  unfold Qdiv, POWER_TO_ENERGY_FACTOR. cbn [Qinv Qnum Qden]. lra.
Qed.

Lemma pef_mul (x : Q) : (x * POWER_TO_ENERGY_FACTOR == x * (1 # 2))%Q.
Proof. reflexivity. Qed.

Lemma prefix_mask_cons {A} (m : nat) (x : A) (l : list A) :
  prefix_mask m (x :: l) = bool_decide (0 < m)%nat :: prefix_mask (pred m) l.
Proof.
  unfold prefix_mask. rewrite imap_cons. f_equal.
  apply imap_ext. intros i y _. cbn. apply bool_decide_ext. lia.
Qed.

Lemma loc_mask_prefix {A} (l : list A) (m : nat) :
  loc_mask (prefix_mask m l) l = take m l.
Proof.
  revert m. induction l as [| x l IH]; intros m.
  - now destruct m.
  - rewrite prefix_mask_cons. destruct m as [| m]; cbn.
    + rewrite IH. now destruct l.
    + now rewrite IH.
Qed.

Lemma zeros_cons {A} (x : A) (l : list A) : zeros (x :: l) = 0%Q :: zeros l.
Proof. reflexivity. Qed.

Lemma assign_profile_load (rows : list Row) (m : nat) (updated : list Q) :
  length updated = Nat.min m (length rows) →
  charger_load_profile <$> assign_profile (prefix_mask m rows) updated rows
  = updated ++ zeros (drop m rows).
Proof.
  revert m updated. induction rows as [| r rows IH]; intros m updated Hlen.
  - cbn in Hlen. rewrite Nat.min_0_r in Hlen.
    apply nil_length_inv in Hlen as ->. now destruct m.
  - rewrite prefix_mask_cons. destruct m as [| m].
    + apply nil_length_inv in Hlen as ->.
      change (charger_load_profile
                <$> (set_charger_load_profile r 0
                       :: assign_profile (prefix_mask 0 rows) [] rows)
              = [] ++ zeros (r :: rows)).
      rewrite fmap_cons, (IH 0%nat []) by now destruct rows.
      reflexivity.
    + destruct updated as [| p updated]; [discriminate |].
      change (charger_load_profile
                <$> (set_charger_load_profile r p
                       :: assign_profile (prefix_mask m rows) updated rows)
              = (p :: updated) ++ zeros (drop m rows)).
      rewrite fmap_cons, IH by (cbn in Hlen; lia).
      reflexivity.
Qed.

Lemma optimized_values_length (e : Q) (l : list Q) (total : Q) :
  length (optimized_values e total l) = length l.
Proof.
  revert total. induction l as [| p l IH]; intros total; [reflexivity |].
  cbn. destruct (Qgt_bool _ _); cbn; now rewrite IH.
Qed.

Lemma find_last_index_min (dataf : list Row) (e : Q) :
  find_last_index dataf e
  = Nat.min (length dataf)
      (length (filter (λ r, Qlt_bool (cumulative_energy r) e = true) dataf) + 1).
Proof.
  unfold find_last_index.
  destruct (Nat.ltb_spec (length dataf)
              (length (filter (λ r, Qlt_bool (cumulative_energy r) e = true)
                         dataf) + 1)); lia.
Qed.

Lemma generate_filter_prefix (dataf : list Row) (e : Q) :
  generate_filter dataf e = prefix_mask (find_last_index dataf e) dataf.
Proof. reflexivity. Qed.

(** The load column of the allocated frame, in ranked order: the loop's
    values on the rows up to the cut, zero after it. *)
Lemma allocated_frame_load (dataf : list Row) (e : Q) :
  let last := find_last_index dataf e in
  charger_load_profile <$> allocated_frame dataf e
  = optimized_values e 0 (take last (charger_load_profile <$> dataf))
    ++ zeros (drop last dataf).
Proof.
  intros last. unfold allocated_frame.
  rewrite generate_filter_prefix. fold last.
  rewrite loc_mask_prefix, fmap_take.
  apply assign_profile_load.
  rewrite optimized_values_length, length_take, length_fmap. reflexivity.
Qed.

Lemma cumsum_from_load (rows : list Row) (acc : Q) :
  charger_load_profile <$> cumsum_from POWER_TO_ENERGY_FACTOR acc rows
  = charger_load_profile <$> rows.
Proof.
  revert acc. induction rows as [| r rows IH]; intros acc; [reflexivity |].
  cbn. now rewrite IH.
Qed.

Lemma count_below_cumsum (e : Q) (rows : list Row) (acc : Q) :
  length (filter (λ r, Qlt_bool (cumulative_energy r) e = true)
            (cumsum_from POWER_TO_ENERGY_FACTOR acc rows))
  = count_below e acc (charger_load_profile <$> rows).
Proof.
  revert acc. induction rows as [| r rows IH]; intros acc; [reflexivity |].
  cbn [cumsum_from fmap list_fmap count_below].
  rewrite filter_cons. cbn [cumulative_energy set_cumulative_energy].
  destruct (Qlt_bool (acc + charger_load_profile r * POWER_TO_ENERGY_FACTOR) e)
    eqn:E.
  - rewrite decide_True by reflexivity. cbn. now rewrite IH.
  - rewrite decide_False by discriminate. cbn. now rewrite IH.
Qed.

(** ** The daily optimizer: the values of the loop against the greedy walk *)

Lemma zeros_fmap {A B} (f : A → B) (l : list A) : zeros (f <$> l) = zeros l.
Proof. unfold zeros. rewrite <- list_fmap_compose. reflexivity. Qed.

Lemma zeros_drop_fmap {A B} (f : A → B) (m : nat) (l : list A) :
  zeros (drop m (f <$> l)) = zeros (drop m l).
Proof. now rewrite <- fmap_drop, zeros_fmap. Qed.

Lemma count_below_zero (e : Q) (hs : list Q) (total : Q) :
  (e <= total)%Q → Forall (λ h, (0 <= h)%Q) hs → count_below e total hs = 0%nat.
Proof.
  revert total. induction hs as [| h hs IH]; intros total Hle Hpos.
  - reflexivity.
  - apply Forall_cons in Hpos as [Hh Hpos]. cbn.
    assert (Hc : (e <= total + h * POWER_TO_ENERGY_FACTOR)%Q).
    { rewrite pef_mul. lra. }
    rewrite (proj2 (Qlt_bool_false _ _) Hc).
    rewrite IH; auto.
Qed.

Lemma greedy_walk_at_request (e : Q) (hs : list Q) (total : Q) :
  (total == e)%Q → Forall (λ h, (0 <= h)%Q) hs →
  Forall2 Qeq (zeros hs) (greedy_walk e total hs).
Proof.
  revert total. induction hs as [| h hs IH]; intros total Heq Hpos.
  - constructor.
  - apply Forall_cons in Hpos as [Hh Hpos]. cbn.
    destruct (Qle_bool (total + h * POWER_TO_ENERGY_FACTOR) e) eqn:E.
    + apply Qle_bool_iff in E. rewrite pef_mul in E.
      constructor; [lra |].
      apply IH; [rewrite pef_mul; lra | exact Hpos].
    + constructor; [rewrite pef_div; lra |].
      clear. induction hs; constructor; [reflexivity | assumption].
Qed.

(** The loop over the rows up to the cut, with zeros after it, is the greedy
    walk of the specification, for headrooms that are not negative. *)
Lemma optimized_values_greedy (e : Q) (hs : list Q) (total : Q) :
  Forall (λ h, (0 <= h)%Q) hs →
  let last := Nat.min (length hs) (count_below e total hs + 1) in
  Forall2 Qeq (optimized_values e total (take last hs) ++ zeros (drop last hs))
    (greedy_walk e total hs).
Proof.
  revert total. induction hs as [| h hs IH]; intros total Hpos last.
  - constructor.
  - apply Forall_cons in Hpos as [Hh Hpos].
    subst last. cbn [count_below length].
    destruct (Qlt_bool (total + h * POWER_TO_ENERGY_FACTOR) e) eqn:Hlt.
    + (* the running sum stays below the request: the slot is taken whole *)
      apply Qlt_bool_true in Hlt.
      replace (Nat.min (S (length hs))
                 (1 + count_below e (total + h * POWER_TO_ENERGY_FACTOR) hs + 1))
        with (S (Nat.min (length hs)
                   (count_below e (total + h * POWER_TO_ENERGY_FACTOR) hs + 1)))
        by lia.
      cbn [take drop optimized_values greedy_walk].
      rewrite (proj2 (Qgt_bool_false _ _)) by lra.
      rewrite (proj2 (Qle_bool_iff _ _)) by lra.
      cbn [app]. constructor; [reflexivity |]. apply IH. exact Hpos.
    + (* the running sum reaches the request: this is the last row kept *)
      apply Qlt_bool_false in Hlt.
      rewrite count_below_zero by assumption.
      replace (Nat.min (S (length hs)) (0 + 0 + 1)) with 1%nat by lia.
      cbn [take drop optimized_values greedy_walk].
      rewrite take_0, drop_0.
      destruct (Qgt_bool (total + h * POWER_TO_ENERGY_FACTOR) e) eqn:Hgt.
      * apply Qgt_bool_true in Hgt.
        rewrite (proj2 (Qle_bool_false _ _)) by lra.
        cbn. constructor; [reflexivity |].
        clear. induction hs; constructor; [reflexivity | assumption].
      * apply Qgt_bool_false in Hgt.
        rewrite (proj2 (Qle_bool_iff _ _)) by lra.
        cbn. constructor; [reflexivity |].
        apply greedy_walk_at_request; [lra | exact Hpos].
Qed.

Lemma Qsum_cons (x : Q) (l : list Q) : Qsum (x :: l) = (x + Qsum l)%Q.
Proof. reflexivity. Qed.

Lemma Qsum_zeros {A} (l : list A) : (Qsum (zeros l) == 0)%Q.
Proof.
  induction l as [| x l IH]; [reflexivity |].
  rewrite zeros_cons, Qsum_cons, IH. lra.
Qed.

Lemma greedy_walk_energy (e : Q) (hs : list Q) (total : Q) :
  (total <= e)%Q →
  (total + Qsum (greedy_walk e total hs) * POWER_TO_ENERGY_FACTOR <= e)%Q.
Proof.
  revert total. induction hs as [| h hs IH]; intros total Hle.
  - cbn [greedy_walk]. change (Qsum []) with 0%Q. lra.
  - cbn [greedy_walk].
    destruct (Qle_bool (total + h * POWER_TO_ENERGY_FACTOR) e) eqn:E.
    + apply Qle_bool_iff in E. specialize (IH _ E).
      rewrite Qsum_cons. unfold POWER_TO_ENERGY_FACTOR in *. lra.
    + rewrite Qsum_cons, Qsum_zeros, pef_div.
      unfold POWER_TO_ENERGY_FACTOR. lra.
Qed.

Lemma greedy_walk_nonneg (e : Q) (hs : list Q) (total : Q) :
  (total <= e)%Q → Forall (λ h, (0 <= h)%Q) hs →
  Forall (λ a, (0 <= a)%Q) (greedy_walk e total hs).
Proof.
  revert total. induction hs as [| h hs IH]; intros total Hle Hpos.
  - constructor.
  - apply Forall_cons in Hpos as [Hh Hpos]. cbn.
    destruct (Qle_bool (total + h * POWER_TO_ENERGY_FACTOR) e) eqn:E.
    + apply Qle_bool_iff in E. constructor; [exact Hh | now apply IH].
    + constructor; [rewrite pef_div; lra |].
      clear. induction hs; constructor; [lra | assumption].
Qed.

Lemma Qsum_Forall2 (l1 l2 : list Q) :
  Forall2 Qeq l1 l2 → (Qsum l1 == Qsum l2)%Q.
Proof.
  induction 1 as [| x y l1 l2 Hxy _ IH]; [reflexivity |].
  rewrite !Qsum_cons, Hxy, IH. reflexivity.
Qed.

Lemma Qsum_Permutation (l1 l2 : list Q) :
  l1 ≡ₚ l2 → (Qsum l1 == Qsum l2)%Q.
Proof.
  induction 1; rewrite ?Qsum_cons; lra.
Qed.

Lemma Forall2_Qeq_nonneg (l1 l2 : list Q) :
  Forall2 Qeq l1 l2 → Forall (λ a, (0 <= a)%Q) l2 → Forall (λ a, (0 <= a)%Q) l1.
Proof.
  induction 1 as [| x y l1 l2 Hxy _ IH]; intros H; [constructor |].
  apply Forall_cons in H as [Hy H]. constructor; [lra | auto].
Qed.

(** ** Sorting *)

Lemma insert_by_perm {A} (cmp : A → A → bool) (x : A) (l : list A) :
  insert_by cmp x l ≡ₚ x :: l.
Proof.
  induction l as [| y l IH]; cbn; [reflexivity |].
  destruct (cmp x y); [reflexivity |].
  rewrite IH. apply perm_swap.
Qed.

Lemma isort_by_perm {A} (cmp : A → A → bool) (l : list A) :
  isort_by cmp l ≡ₚ l.
Proof.
  induction l as [| x l IH]; cbn; [reflexivity |].
  rewrite insert_by_perm. now rewrite IH.
Qed.

Lemma stable_sort_values_perm (ascending : bool) (l : list Row) :
  stable_sort_values ascending l ≡ₚ l.
Proof. apply isort_by_perm. Qed.

Lemma sort_index_perm {A} (l : list (Z * A)) : sort_index l ≡ₚ l.
Proof. apply isort_by_perm. Qed.

(** ** The availability profile *)

Lemma charger_load_availability_profile_nonneg (site limit max_out : Q) :
  (0 <= charger_load_availability_profile site limit max_out)%Q.
Proof.
  unfold charger_load_availability_profile.
  destruct (Qlt_bool _ 0) eqn:E; [lra |]. now apply Qlt_bool_false in E.
Qed.





(** ** The daily optimizer and the name [sim_Arguments] *)

Lemma optimized_loop_Unbound (e total p : Q) (rest : list Q) :
  optimized_loop Unbound e total (p :: rest) = Raised NameError.
Proof. reflexivity. Qed.

Lemma optimized_loop_Bound (e : Q) (l : list Q) (total : Q) :
  optimized_loop Bound e total l = Returned (optimized_values e total l).
Proof.
  revert total. induction l as [| p l IH]; intros total; [reflexivity |].
  cbn [optimized_loop optimized_values sim_Arguments_POWER_TO_ENERGY_FACTOR
       mbind Result_bind].
  destruct (Qgt_bool (total + p * POWER_TO_ENERGY_FACTOR) e);
    rewrite IH; reflexivity.
Qed.

(** The cut of a frame that has rows selects its first row at least. *)
Lemma selection_nonempty (dataf : list Row) (e : Q) :
  dataf ≠ [] →
  ∃ p rest,
    charger_load_profile <$> loc_mask (generate_filter dataf e) dataf
    = p :: rest.
Proof.
  intros Hne. rewrite generate_filter_prefix, loc_mask_prefix.
  rewrite find_last_index_min.
  destruct dataf as [| r rows]; [congruence |].
  cbn [length].
  destruct (Nat.min (S (length rows))
              (length (filter (λ r0, Qlt_bool (cumulative_energy r0) e = true)
                         (r :: rows)) + 1)) as [| m] eqn:E; [lia |].
  cbn. eauto.
Qed.

Lemma calculate_optimized_charging_profile_Bound (dataf : list Row) (e : Q) :
  calculate_optimized_charging_profile Bound dataf e
  = Returned
      (optimized_values e 0
         (charger_load_profile <$> loc_mask (generate_filter dataf e) dataf)).
Proof. apply optimized_loop_Bound. Qed.

Lemma apply_new_charging_profile_Bound (dataf : list Row) (e : Q) :
  apply_new_charging_profile Bound dataf e
  = Returned (sort_index (to_frame (allocated_frame dataf e))).
Proof.
  unfold apply_new_charging_profile.
  rewrite calculate_optimized_charging_profile_Bound. reflexivity.
Qed.

(** C2.  As the sources stand the greedy allocation is never computed: the
    name [sim_Arguments] is unbound in controller.py, so
    [combine_load_profile] and [cumsum_energy_consumed] raise [NameError]
    on every call, the loop of [calculate_optimized_charging_profile] raises
    it on its first pass for every frame that has a row, and the optimizer
    of a day raises it on every day.  Only the empty frame comes back from
    [calculate_optimized_charging_profile], as the empty profile. *)
Theorem daily_optimizer_raises_NameError
    (sort_values : bool → list Row → list Row) (day_dataf : list Row)
    (ev : EV) (limits : list (Z * Q)) (max_out : Q) (dataf : list Row)
    (ascending : bool) (e : Q) :
  combine_load_profile controller_namespace day_dataf (schedule (battery ev))
    limits max_out = Raised NameError
  ∧ cumsum_energy_consumed sort_values controller_namespace dataf ascending
    = Raised NameError
  ∧ (dataf ≠ [] →
     calculate_optimized_charging_profile controller_namespace dataf e
     = Raised NameError
     ∧ apply_new_charging_profile controller_namespace dataf e
       = Raised NameError)
  ∧ calculate_optimized_charging_profile controller_namespace [] e
    = Returned []
  ∧ get_charging_profile_for_single_day sort_values controller_namespace
      day_dataf ev limits max_out = Raised NameError.
Proof.
  split; [reflexivity |]. split; [reflexivity |].
  split; [| split; reflexivity].
  intros Hne.
  assert (H : calculate_optimized_charging_profile controller_namespace dataf e
              = Raised NameError).
  { unfold calculate_optimized_charging_profile.
    destruct (selection_nonempty dataf e Hne) as (p & rest & ->).
    apply optimized_loop_Unbound. }
  split; [exact H |].
  unfold apply_new_charging_profile. rewrite H. reflexivity.
Qed.

(** The request of scenario A of the specification (9 kWh, 7 kW charger, no
    binding limit) on the sample Monday: the call raises. *)
Lemma scenario_A_raises :
  (requested_energy (battery sample_ev) == 9)%Q
  ∧ get_charging_profile_for_single_day stable_sort_values
      controller_namespace sample_day sample_ev loose_limits 7
    = Raised NameError.
Proof. split; reflexivity. Qed.

(** ** The daily optimizer once the name is bound

    What the functions compute when [sim_Arguments] names
    [sim_parameters]. *)

Lemma loc_mask_assign_nonneg (filt : list bool) (values : list Q)
    (rows : list Row) :
  Forall (λ p, (0 <= p)%Q) values →
  Forall (λ r, (0 <= charger_load_profile r)%Q) rows →
  Forall (λ r, (0 <= charger_load_profile r)%Q)
    (loc_mask_assign filt values rows).
Proof.
  revert values rows. induction filt as [| b filt IH]; intros values rows Hv Hr.
  - now destruct rows.
  - destruct rows as [| r rows]; [now destruct b |].
    apply Forall_cons in Hr as [Hr0 Hr].
    destruct b; cbn [loc_mask_assign].
    + destruct values as [| p values].
      * constructor; [exact Hr0 | now apply IH].
      * apply Forall_cons in Hv as [Hp Hv].
        constructor; [exact Hp | now apply IH].
    + constructor; [exact Hr0 | now apply IH].
Qed.

(** The loads [combine_load_profile] returns are never negative. *)
Lemma combine_load_profile_nonneg (sim_Arguments : Binding)
    (site_dataf : list Row) (sch : Schedule) (limits : list (Z * Q))
    (max_out : Q) (combined : list Row) :
  combine_load_profile sim_Arguments site_dataf sch limits max_out
  = Returned combined →
  Forall (λ r, (0 <= charger_load_profile r)%Q) combined.
Proof.
  unfold combine_load_profile.
  destruct sim_Arguments; [discriminate |].
  cbn [sim_Arguments_POWER_TO_ENERGY_FACTOR mbind Result_bind].
  destruct (negb _); [discriminate |].
  destruct (negb _); [discriminate |].
  intros [= <-]. apply loc_mask_assign_nonneg.
  - apply Forall_forall. intros p Hp.
    apply list_elem_of_lookup_1 in Hp as [i Hi].
    apply lookup_zip_with_Some in Hi as (s & l & -> & _ & _).
    apply charger_load_availability_profile_nonneg.
  - apply Forall_fmap, Forall_forall. intros r _. cbn. lra.
Qed.

Section RankedFrame.
Variable combined : list Row.
Hypothesis combined_nonneg :
  Forall (λ r, (0 <= charger_load_profile r)%Q) combined.

Let ranked := cumsum_from POWER_TO_ENERGY_FACTOR 0 combined.

Lemma ranked_load_nonneg :
  Forall (λ h, (0 <= h)%Q) (charger_load_profile <$> ranked).
Proof.
  subst ranked. rewrite cumsum_from_load. now apply Forall_fmap.
Qed.

Lemma last_index_count (e : Q) :
  find_last_index ranked e
  = Nat.min (length (charger_load_profile <$> ranked))
      (count_below e 0 (charger_load_profile <$> ranked) + 1).
Proof.
  rewrite find_last_index_min, length_fmap.
  subst ranked. now rewrite count_below_cumsum, cumsum_from_load.
Qed.

Lemma allocated_greedy (e : Q) :
  Forall2 Qeq (charger_load_profile <$> allocated_frame ranked e)
    (greedy_walk e 0 (charger_load_profile <$> ranked)).
Proof.
  rewrite allocated_frame_load, last_index_count.
  rewrite <- zeros_drop_fmap with (f := charger_load_profile).
  apply optimized_values_greedy. apply ranked_load_nonneg.
Qed.
End RankedFrame.

(** With the name bound, the ranked frame of loads that are not negative is
    allocated as the greedy walk of the specification describes: full
    headroom while the running energy stays within the request [e >= 0],
    the remaining deficit on the first slot that would pass it, zero
    afterwards; no allocation is negative and the energy of the result is
    at most [e]. *)
Lemma allocation_is_greedy_walk_when_bound
    (sort_values : bool → list Row → list Row) (combined : list Row) (e : Q) :
  (∀ ascending l, sort_values ascending l ≡ₚ l) →
  Forall (λ r, (0 <= charger_load_profile r)%Q) combined →
  (0 <= e)%Q →
  let ranked :=
    cumsum_from POWER_TO_ENERGY_FACTOR 0 (sort_values true combined) in
  let alloc := charger_load_profile <$> allocated_frame ranked e in
  cumsum_energy_consumed sort_values Bound combined true = Returned ranked
  ∧ apply_new_charging_profile Bound ranked e
    = Returned (sort_index (to_frame (allocated_frame ranked e)))
  ∧ Forall2 Qeq alloc (greedy_walk e 0 (charger_load_profile <$> ranked))
  ∧ Forall (λ a, (0 <= a)%Q) alloc
  ∧ (Qsum alloc * POWER_TO_ENERGY_FACTOR <= e)%Q
  ∧ (Qsum (snd <$> sort_index (to_frame (allocated_frame ranked e)))
       * POWER_TO_ENERGY_FACTOR <= e)%Q.
Proof.
  intros Hperm Hnn He ranked alloc.
  assert (Hsorted_nn : Forall (λ r, (0 <= charger_load_profile r)%Q)
                         (sort_values true combined)).
  { now rewrite (Hperm true combined). }
  pose proof (allocated_greedy _ Hsorted_nn e) as Hg.
  pose proof (ranked_load_nonneg _ Hsorted_nn) as Hn.
  fold ranked in Hg, Hn. fold alloc in Hg.
  assert (Hsum : (Qsum alloc * POWER_TO_ENERGY_FACTOR <= e)%Q).
  { rewrite (Qsum_Forall2 _ _ Hg).
    pose proof (greedy_walk_energy e (charger_load_profile <$> ranked) 0 He).
    lra. }
  split; [reflexivity |].
  split; [apply apply_new_charging_profile_Bound |].
  split; [exact Hg |]. split; [| split; [exact Hsum |]].
  - eapply Forall2_Qeq_nonneg; [exact Hg |].
    apply greedy_walk_nonneg; assumption.
  - assert (Hp : snd <$> sort_index (to_frame (allocated_frame ranked e))
                 ≡ₚ alloc).
    { rewrite sort_index_perm.
      unfold to_frame. rewrite <- list_fmap_compose. reflexivity. }
    rewrite (Qsum_Permutation _ _ Hp). exact Hsum.
Qed.

Lemma allocation_is_greedy_walk_on_sample (combined : list Row) :
  combine_load_profile Bound sample_day default_schedule loose_limits 7
  = Returned combined →
  let ranked :=
    cumsum_from POWER_TO_ENERGY_FACTOR 0 (stable_sort_values true combined) in
  let alloc := charger_load_profile <$> allocated_frame ranked 9 in
  Forall2 Qeq alloc (greedy_walk 9 0 (charger_load_profile <$> ranked))
  ∧ (Qsum alloc * POWER_TO_ENERGY_FACTOR <= 9)%Q.
Proof.
  intros Hc ranked alloc.
  apply combine_load_profile_nonneg in Hc.
  destruct (allocation_is_greedy_walk_when_bound stable_sort_values combined 9
              stable_sort_values_perm Hc ltac:(discriminate))
    as (_ & _ & Hg & _ & Hs & _).
  split; assumption.
Qed.

(** Scenario A of the specification with the name bound: 9 kWh asked, 7 kW
    charger, no binding limit; the base ranking fills 08:00 and 08:30 and
    puts the remaining 2 kWh (4 kW) at 09:00. *)
Lemma scenario_A_when_bound :
  match get_charging_profile_for_single_day stable_sort_values Bound
          sample_day sample_ev loose_limits 7 with
  | Returned out =>
      Forall2 Qeq (snd <$> take 3 (drop 16 out)) [7; 7; 4]%Q
      ∧ (Qsum (snd <$> out) * POWER_TO_ENERGY_FACTOR == 9)%Q
  | Raised _ => False
  end.
Proof.
  vm_compute. repeat split; repeat constructor.
Qed.

(** Two days through the year loop with the name bound: the Monday is
    charged from 08:00, the Saturday not at all, and the frame comes back in
    time order.  As the sources stand the loop raises on its first day. *)
Lemma year_profile_two_days :
  match get_charging_profile_for_year stable_sort_values Bound
          (sample_day ++ saturday_day) sample_ev 7
          (loose_limits ++ saturday_limits) with
  | Returned profile =>
      length profile = 96%nat
      ∧ fst <$> profile = idx <$> (sample_day ++ saturday_day)
      ∧ Forall2 Qeq (snd <$> take 3 (drop 16 profile)) [7; 7; 4]%Q
      ∧ (Qsum (snd <$> profile) * POWER_TO_ENERGY_FACTOR == 9)%Q
  | Raised _ => False
  end
  ∧ get_charging_profile_for_year stable_sort_values controller_namespace
      (sample_day ++ saturday_day) sample_ev 7
      (loose_limits ++ saturday_limits) = Raised NameError.
Proof.
  split; [| reflexivity].
  vm_compute. repeat split; repeat constructor.
Qed.

(** ** The heap: what [deepcopy] allocates *)

Lemma heap_incl_refl (h : Heap) : heap_incl h h.
Proof. split; auto. Qed.

Lemma heap_incl_evs_None (h0 h : Heap) (l : loc) :
  heap_incl h0 h → evs h !! l = None → evs h0 !! l = None.
Proof.
  intros [He _] Hn. destruct (evs h0 !! l) as [ev |] eqn:E; [| reflexivity].
  apply He in E. congruence.
Qed.

Lemma heap_incl_chargers_None (h0 h : Heap) (c : loc) :
  heap_incl h0 h → chargers h !! c = None → chargers h0 !! c = None.
Proof.
  intros [_ Hc] Hn. destruct (chargers h0 !! c) as [ch |] eqn:E; [| reflexivity].
  apply Hc in E. congruence.
Qed.

Lemma fresh_evs_None (m : gmap loc EV) : m !! fresh (dom m) = None.
Proof. apply not_elem_of_dom. apply is_fresh. Qed.

Lemma fresh_chargers_None (m : gmap loc Charger) : m !! fresh (dom m) = None.
Proof. apply not_elem_of_dom. apply is_fresh. Qed.

Lemma run_inv_insert_ev (h0 h : Heap) (l : loc) (ev : EV) :
  run_inv h0 h → evs h0 !! l = None →
  run_inv h0 (set_evs h (<[l := ev]> (evs h))).
Proof.
  intros [[He Hc] Hcl] Hl.
  split; [split |]; cbn [evs chargers set_evs set_chargers].
  - intros l' ev' H. rewrite lookup_insert_ne by congruence. auto.
  - exact Hc.
  - exact Hcl.
Qed.

Lemma run_inv_insert_charger (h0 h : Heap) (c : loc) (ch : Charger) :
  run_inv h0 h → chargers h0 !! c = None →
  Forall (λ l, evs h0 !! l = None) (ev_list ch) →
  run_inv h0 (set_chargers h (<[c := ch]> (chargers h))).
Proof.
  intros [[He Hc] Hcl] Hn Hev.
  split; [split |]; cbn [evs chargers set_evs set_chargers].
  - exact He.
  - intros c' ch' H. rewrite lookup_insert_ne by congruence. auto.
  - intros c' ch' Hn' H. cbn [chargers set_chargers] in H.
    destruct (decide (c = c')) as [-> | Hne].
    + rewrite lookup_insert_eq in H. injection H as <-. exact Hev.
    + rewrite lookup_insert_ne in H by exact Hne. eauto.
Qed.

Lemma deepcopy_EV_inv (h0 : Heap) (l : loc) (st : CopyState) :
  copy_inv h0 st →
  copy_inv h0 (snd (deepcopy_EV l st))
  ∧ evs h0 !! fst (deepcopy_EV l st) = None.
Proof.
  intros Hinv. pose proof Hinv as (Hrun & Hme & Hmc). unfold deepcopy_EV.
  destruct (memo_evs st !! l) as [l' |] eqn:Hm.
  - cbn [fst snd]. split; [exact Hinv | eauto].
  - destruct (evs (cs_heap st) !! l) as [ev |] eqn:Hl; cbn [fst snd].
    + assert (Hf : evs h0 !! fresh (dom (evs (cs_heap st))) = None).
      { eapply heap_incl_evs_None; [apply Hrun | apply fresh_evs_None]. }
      split; [| exact Hf].
      split; [| split];
        cbn [memo_evs memo_chargers cs_heap evs chargers set_evs set_chargers].
      * now apply run_inv_insert_ev.
      * intros k k' H. destruct (decide (l = k)) as [-> | Hne].
        -- rewrite lookup_insert_eq in H. now injection H as <-.
        -- rewrite lookup_insert_ne in H by exact Hne. eauto.
      * exact Hmc.
    + split; [exact Hinv |].
      eapply heap_incl_evs_None; [apply Hrun | exact Hl].
Qed.

Lemma deepcopy_ev_list_inv (h0 : Heap) (evl : list loc) (st : CopyState) :
  copy_inv h0 st →
  copy_inv h0 (snd (deepcopy_ev_list evl st))
  ∧ Forall (λ l, evs h0 !! l = None) (fst (deepcopy_ev_list evl st)).
Proof.
  revert st. induction evl as [| l evl IH]; intros st Hinv; cbn.
  - split; [exact Hinv | constructor].
  - destruct (deepcopy_EV_inv h0 l st Hinv) as [Hinv' Hl].
    destruct (deepcopy_EV l st) as [l' st']. cbn in *.
    destruct (IH st' Hinv') as [Hinv'' Hevl].
    destruct (deepcopy_ev_list evl st') as [evl'' st'']. cbn in *.
    split; [exact Hinv'' | constructor; assumption].
Qed.

Lemma deepcopy_Charger_inv (h0 : Heap) (c : loc) (st : CopyState) :
  copy_inv h0 st →
  copy_inv h0 (snd (deepcopy_Charger c st))
  ∧ chargers h0 !! fst (deepcopy_Charger c st) = None.
Proof.
  intros Hinv. pose proof Hinv as (Hrun & Hme & Hmc). unfold deepcopy_Charger.
  destruct (memo_chargers st !! c) as [c' |] eqn:Hm.
  - cbn [fst snd]. split; [exact Hinv | eauto].
  - destruct (chargers (cs_heap st) !! c) as [ch |] eqn:Hc; cbn [fst snd].
    + destruct (deepcopy_ev_list_inv h0 (ev_list ch) st Hinv)
        as [(Hrun' & Hme' & Hmc') Hevl].
      destruct (deepcopy_ev_list (ev_list ch) st) as [evl' st'].
      cbn [fst snd] in *.
      assert (Hf : chargers h0 !! fresh (dom (chargers (cs_heap st'))) = None).
      { eapply heap_incl_chargers_None;
          [apply Hrun' | apply fresh_chargers_None]. }
      split; [| exact Hf].
      split; [| split];
        cbn [memo_evs memo_chargers cs_heap evs chargers set_evs set_chargers].
      * apply run_inv_insert_charger; assumption.
      * exact Hme'.
      * intros k k' H. destruct (decide (c = k)) as [-> | Hne].
        -- rewrite lookup_insert_eq in H. now injection H as <-.
        -- rewrite lookup_insert_ne in H by exact Hne. eauto.
    + split; [exact Hinv |].
      eapply heap_incl_chargers_None; [apply Hrun | exact Hc].
Qed.

Lemma deepcopy_dict_inv (h0 : Heap) (d : list (string * loc)) (st : CopyState) :
  copy_inv h0 st →
  copy_inv h0 (snd (deepcopy_dict d st))
  ∧ Forall (λ kc, chargers h0 !! snd kc = None) (fst (deepcopy_dict d st))
  ∧ fst <$> fst (deepcopy_dict d st) = fst <$> d.
Proof.
  revert st. induction d as [| [k c] d IH]; intros st Hinv; cbn.
  - split; [exact Hinv | split; [constructor | reflexivity]].
  - destruct (deepcopy_Charger_inv h0 c st Hinv) as [Hinv' Hc].
    destruct (deepcopy_Charger c st) as [c' st']. cbn in *.
    destruct (IH st' Hinv') as (Hinv'' & Hd & Hk).
    destruct (deepcopy_dict d st') as [d'' st'']. cbn in *.
    split; [exact Hinv'' |]. split; [constructor; assumption |].
    now rewrite Hk.
Qed.

(** [deepcopy] touches no object of the heap, and the roster it returns
    consists of new objects only. *)
Lemma deepcopy_inv (d : list (string * loc)) (h : Heap) :
  run_inv h (snd (deepcopy d h))
  ∧ Forall (λ kc, chargers h !! snd kc = None) (fst (deepcopy d h))
  ∧ fst <$> fst (deepcopy d h) = fst <$> d.
Proof.
  unfold deepcopy.
  assert (Hinit : copy_inv h (mkCopyState ∅ ∅ h)).
  { split; [split; [apply heap_incl_refl |] | split]; cbn.
    - intros c ch Hn Hs. congruence.
    - intros l l' H. now rewrite lookup_empty in H.
    - intros c c' H. now rewrite lookup_empty in H. }
  destruct (deepcopy_dict_inv h d _ Hinit) as ((Hrun & _) & Hd & Hk).
  destruct (deepcopy_dict d (mkCopyState ∅ ∅ h)) as [d' st]. cbn in *.
  auto.
Qed.

(** ** The heap: what a run writes *)

Lemma ev_charging_profile_at_inv (h0 h : Heap) (l : loc) (ts : list Z)
    (outs : list Q) :
  run_inv h0 h → evs h0 !! l = None →
  run_inv h0 (snd (ev_charging_profile_at l ts outs h)).
Proof.
  intros Hinv Hl. unfold ev_charging_profile_at.
  destruct (evs h !! l) as [ev |]; [| exact Hinv].
  destruct (EV_charging_profile ev ts outs) as [dispatched ev'].
  cbn [snd]. now apply run_inv_insert_ev.
Qed.

Lemma dispatch_loop_inv (h0 : Heap) (evl : list loc) (ts : list Z)
    (energy total : list Q) (h : Heap) :
  run_inv h0 h → Forall (λ l, evs h0 !! l = None) evl →
  run_inv h0 (snd (dispatch_loop evl ts energy total h)).
Proof.
  revert total h. induction evl as [| l evl IH]; intros total h Hinv Hevl.
  - exact Hinv.
  - apply Forall_cons in Hevl as [Hl Hevl]. cbn [dispatch_loop].
    pose proof (ev_charging_profile_at_inv h0 h l ts energy Hinv Hl) as Hinv'.
    destruct (ev_charging_profile_at l ts energy h) as [dispatched h'].
    cbn [snd] in Hinv'. now apply IH.
Qed.

Lemma dispatch_loop_chargers (evl : list loc) (ts : list Z)
    (energy total : list Q) (h : Heap) :
  chargers (snd (dispatch_loop evl ts energy total h)) = chargers h.
Proof.
  revert total h. induction evl as [| l evl IH]; intros total h.
  - reflexivity.
  - cbn [dispatch_loop]. unfold ev_charging_profile_at.
    destruct (evs h !! l) as [ev |].
    + destruct (EV_charging_profile ev ts energy) as [dispatched ev'].
      now rewrite IH.
    + now rewrite IH.
Qed.

Lemma run_inv_alter_recorder (h0 h : Heap) (c : loc)
    (f : TimeserieRecorder → TimeserieRecorder) :
  run_inv h0 h → chargers h0 !! c = None →
  run_inv h0
    (set_chargers h
       (alter (λ ch, set_data_recorder ch (f (data_recorder ch))) c
          (chargers h))).
Proof.
  intros [[He Hc] Hcl] Hn.
  split; [split |]; cbn [evs chargers set_evs set_chargers].
  - exact He.
  - intros c' ch' H. rewrite lookup_alter_ne by congruence. auto.
  - intros c' ch' Hn' H. cbn [chargers set_chargers] in H.
    destruct (decide (c = c')) as [-> | Hne].
    + rewrite lookup_alter_eq in H.
      destruct (chargers h !! c') as [ch |] eqn:E; [| discriminate].
      cbn in H. injection H as <-. cbn. eauto.
    + rewrite lookup_alter_ne in H by exact Hne. eauto.
Qed.

Lemma Charger_charging_profile_inv (h0 h : Heap) (c : loc) (ts : list Z)
    (sched : option (list Q)) :
  run_inv h0 h → chargers h0 !! c = None →
  run_inv h0 (snd (Charger_charging_profile c ts sched h)).
Proof.
  intros Hinv Hc. unfold Charger_charging_profile.
  destruct (chargers h !! c) as [self |] eqn:Hself; [| exact Hinv].
  set (energy := (λ p, (p * POWER_TO_ENERGY_FACTOR)%Q) <$> _).
  assert (Hevl : Forall (λ l, evs h0 !! l = None) (ev_list self)).
  { destruct Hinv as [_ Hcl]. eapply Hcl; eauto. }
  pose proof (dispatch_loop_inv h0 (ev_list self) ts energy (zeros ts) h
                Hinv Hevl) as Hinv'.
  destruct (dispatch_loop (ev_list self) ts energy (zeros ts) h)
    as [total h'].
  cbn [snd] in *.
  apply (run_inv_alter_recorder h0 h' c
           (λ r, record_batch_data r ts
                   ((λ p, (p * POWER_TO_ENERGY_FACTOR)%Q) <$> total)
                   ENERGY_INPUT)); assumption.
Qed.

Section RunFrame.
Variable sort_values : bool → list Row → list Row.
Variable sim_Arguments : Binding.

Lemma run_optimizer_evs_inv (h0 : Heap) (c : loc) (max_out : Q)
    (evl : list loc) (limits : list (Z * Q)) (site_df : list Row) (h : Heap) :
  run_inv h0 h → chargers h0 !! c = None →
  run_inv h0
    (snd (run_optimizer_evs sort_values sim_Arguments c max_out evl limits
            site_df h)).
Proof.
  revert site_df h. induction evl as [| l evl IH]; intros site_df h Hinv Hc.
  - exact Hinv.
  - cbn [run_optimizer_evs].
    destruct (evs h !! l) as [temp_ev |]; [| now apply IH].
    destruct (get_charging_profile_for_year sort_values sim_Arguments site_df
                temp_ev max_out limits) as [profile | e]; [| exact Hinv].
    pose proof (Charger_charging_profile_inv h0 h c (fst <$> profile)
                  (Some (snd <$> profile)) Hinv Hc) as Hinv'.
    destruct (Charger_charging_profile c (fst <$> profile)
                (Some (snd <$> profile)) h) as [out h'].
    cbn [snd] in Hinv'.
    destruct (negb _); [exact Hinv' |].
    destruct (sim_Arguments_POWER_TO_ENERGY_FACTOR sim_Arguments);
      [now apply IH | exact Hinv'].
Qed.

Lemma run_optimizer_chargers_inv (h0 : Heap) (d : list (string * loc))
    (limits : list (Z * Q)) (results : list (string * list Z))
    (site_df : list Row) (h : Heap) :
  run_inv h0 h → Forall (λ kc, chargers h0 !! snd kc = None) d →
  run_inv h0
    (snd (run_optimizer_chargers sort_values sim_Arguments d limits results
            site_df h)).
Proof.
  revert results site_df h.
  induction d as [| [k c] d IH]; intros results site_df h Hinv Hd.
  - exact Hinv.
  - apply Forall_cons in Hd as [Hc Hd]. cbn [snd] in Hc.
    cbn [run_optimizer_chargers].
    destruct (chargers h !! c) as [sim_charger |]; [| now apply IH].
    pose proof (run_optimizer_evs_inv h0 c (max_output sim_charger)
                  (ev_list sim_charger) limits site_df h Hinv Hc) as Hinv'.
    destruct (run_optimizer_evs sort_values sim_Arguments c
                (max_output sim_charger) (ev_list sim_charger) limits
                site_df h) as [[site_df' | e] h'];
      cbn [snd] in Hinv'; [| exact Hinv'].
    now apply IH.
Qed.

Lemma run_optimizer_inv (h0 : Heap) (d : list (string * loc))
    (site_df : list Row) (limits : list (Z * Q)) (h : Heap) :
  run_inv h0 h → Forall (λ kc, chargers h0 !! snd kc = None) d →
  run_inv h0 (snd (run_optimizer sort_values sim_Arguments d site_df limits h)).
Proof.
  intros Hinv Hd. unfold run_optimizer.
  destruct (sim_Arguments_POWER_TO_ENERGY_FACTOR sim_Arguments);
    [| exact Hinv].
  pose proof (run_optimizer_chargers_inv h0 d limits [] site_df h Hinv Hd)
    as H.
  destruct (run_optimizer_chargers sort_values sim_Arguments d limits []
              site_df h) as [[results | e] h']; exact H.
Qed.

Lemma run_control_method_inv (self : Optimized_Sites)
    (control_type : SiteScheduleOptimzer) (h : Heap) :
  run_inv h
    (snd (run_control_method sort_values sim_Arguments self control_type h)).
Proof.
  unfold run_control_method.
  destruct (profile_not_supplied self control_type).
  - split; [apply heap_incl_refl |]. intros c ch Hn Hs. cbn in Hs. congruence.
  - destruct (deepcopy_inv (dict_of_chargers self) h) as (Hinv & Hd & _).
    destruct (deepcopy (dict_of_chargers self) h) as [copy_chargers h1].
    cbn [fst snd] in *. unfold run_controller_optimizer.
    pose proof (run_optimizer_inv h copy_chargers
                  (site_dataf_creator self control_type)
                  (max_import_demand self) h1 Hinv Hd) as H.
    destruct (run_optimizer sort_values sim_Arguments copy_chargers
                (site_dataf_creator self control_type)
                (max_import_demand self) h1) as [[res | e] h2]; exact H.
Qed.
End RunFrame.

(** C8.  A run of one strategy leaves every vehicle and every charger that
    existed before the call as it was: battery (with its state of charge)
    and recorder included.  What the run writes are the copies made by
    [deepcopy]; the objects of an earlier strategy's result exist before the
    next call, so a later run does not write them either.  This holds
    whether the run returns or raises, with the name [sim_Arguments] unbound
    as in the sources (the run then stops before it writes anything) and
    with the name bound. *)
Theorem run_control_method_frame (sort_values : bool → list Row → list Row)
    (sim_Arguments : Binding)
    (self : Optimized_Sites) (control_type : SiteScheduleOptimzer) (h : Heap) :
  let h' :=
    snd (run_control_method sort_values sim_Arguments self control_type h) in
  (∀ l ev, evs h !! l = Some ev →
     evs h' !! l = Some ev
     ∧ (∀ ev', evs h' !! l = Some ev' →
          current_soc (battery ev') = current_soc (battery ev)
          ∧ ev_data_recorder ev' = ev_data_recorder ev))
  ∧ (∀ c ch, chargers h !! c = Some ch →
       chargers h' !! c = Some ch
       ∧ (∀ ch', chargers h' !! c = Some ch' →
            data_recorder ch' = data_recorder ch ∧ ev_list ch' = ev_list ch)).
Proof.
  intros h'.
  destruct (run_control_method_inv sort_values sim_Arguments self control_type
              h) as [[He Hc] _]. fold h' in He, Hc.
  split.
  - intros l ev H. apply He in H. split; [exact H |].
    intros ev' H'. rewrite H in H'. now injection H' as <-.
  - intros c ch H. apply Hc in H. split; [exact H |].
    intros ch' H'. rewrite H in H'. now injection H' as <-.
Qed.

(** The base strategy on the sample site as the sources stand: the roster
    is copied (a new charger with a new vehicle), then the run raises; the
    copies hold what the originals hold, and the originals are as before. *)
Lemma run_control_method_raises_on_sample :
  let r := run_control_method stable_sort_values controller_namespace
             sample_site BASE_OPTIMIZER sample_heap in
  fst r = Raised NameError
  ∧ (ev_list <$> chargers (snd r) !! 2%positive) = Some [2%positive]
  ∧ evs (snd r) !! 2%positive = evs sample_heap !! 1%positive
  ∧ evs (snd r) !! 1%positive = evs sample_heap !! 1%positive
  ∧ chargers (snd r) !! 1%positive = chargers sample_heap !! 1%positive.
Proof.
  vm_compute. repeat split.
Qed.

(** The same run with the name bound: the result refers to the new charger
    and its new vehicle, whose recorders hold the day's charging (3, 3 and
    2 kWh from 08:00, fractions dropped); the vehicle and the charger the
    site was built with hold zeros as before. *)
Lemma run_control_method_writes_the_copy :
  let r := run_control_method stable_sort_values Bound sample_site
             BASE_OPTIMIZER sample_heap in
  let energy_from_8 (rec : TimeserieRecorder) :=
    take 4 (drop 16 (column_values rec ENERGY_INPUT)) in
  match fst r with
  | Returned (Some gen_site) =>
      dict_site_assets gen_site = [("Charger_1", 2%positive)]
  | _ => False
  end
  ∧ (ev_list <$> chargers (snd r) !! 2%positive) = Some [2%positive]
  ∧ (energy_from_8 ∘ ev_data_recorder <$> evs (snd r) !! 2%positive)
    = Some [3; 3; 2; 0]
  ∧ (energy_from_8 ∘ data_recorder <$> chargers (snd r) !! 2%positive)
    = Some [3; 3; 2; 0]
  ∧ (energy_from_8 ∘ ev_data_recorder <$> evs (snd r) !! 1%positive)
    = Some [0; 0; 0; 0]
  ∧ (energy_from_8 ∘ data_recorder <$> chargers (snd r) !! 1%positive)
    = Some [0; 0; 0; 0]
  ∧ evs (snd r) !! 1%positive = evs sample_heap !! 1%positive
  ∧ chargers (snd r) !! 1%positive = chargers sample_heap !! 1%positive.
Proof.
  vm_compute. repeat split.
Qed.

(** ** Strategies without their frame, and the strategies that run *)

Lemma run_control_method_skips (sort_values : bool → list Row → list Row)
    (sim_Arguments : Binding) (self : Optimized_Sites)
    (control_type : SiteScheduleOptimzer) (h : Heap) :
  profile_not_supplied self control_type = true →
  run_control_method sort_values sim_Arguments self control_type h
  = (Returned None, h).
Proof. intros H. unfold run_control_method. now rewrite H. Qed.

(** A strategy that is not skipped copies the roster and calls
    [run_optimizer], which raises at its first read of [sim_Arguments]. *)
Lemma run_control_method_raises (sort_values : bool → list Row → list Row)
    (self : Optimized_Sites) (control_type : SiteScheduleOptimzer) (h : Heap) :
  profile_not_supplied self control_type = false →
  run_control_method sort_values Unbound self control_type h
  = (Raised NameError, snd (deepcopy (dict_of_chargers self) h)).
Proof.
  intros H. unfold run_control_method. rewrite H.
  destruct (deepcopy (dict_of_chargers self) h) as [copy_chargers h1].
  reflexivity.
Qed.

Lemma profile_not_supplied_cases (self : Optimized_Sites) :
  profile_not_supplied self BASE_OPTIMIZER = false
  ∧ profile_not_supplied self EMISSION_OPTIMIZER = is_None (carbon_dataf self)
  ∧ profile_not_supplied self PRICE_OPTIMIZER = is_None (price_dataf self)
  ∧ profile_not_supplied self PV_OPTIMIZER = is_None (pv_dataf self).
Proof.
  unfold profile_not_supplied. cbn.
  destruct (carbon_dataf self), (price_dataf self), (pv_dataf self);
    cbn; auto.
Qed.

(** C9.  When the carbon (price, PV) frame is [None], the emission (price,
    PV) strategy returns [None] and leaves the heap as it was: nothing is
    copied, nothing is simulated and nothing is raised.  But as the sources
    stand no strategy that is not skipped runs to its end: it copies the
    roster and raises [NameError] in [run_optimizer].  The base strategy is
    never skipped and [run_all_control_methods] calls it first, so
    [run_all_control_methods] raises [NameError] for every site and returns
    no mapping. *)
Theorem run_all_control_methods_raises
    (sort_values : bool → list Row → list Row) (self : Optimized_Sites)
    (h : Heap) :
  let run := run_control_method sort_values controller_namespace self in
  (carbon_dataf self = None → run EMISSION_OPTIMIZER h = (Returned None, h))
  ∧ (price_dataf self = None → run PRICE_OPTIMIZER h = (Returned None, h))
  ∧ (pv_dataf self = None → run PV_OPTIMIZER h = (Returned None, h))
  ∧ (∀ control_type, profile_not_supplied self control_type = false →
       fst (run control_type h) = Raised NameError)
  ∧ fst (run BASE_OPTIMIZER h) = Raised NameError
  ∧ fst (run_all_control_methods sort_values controller_namespace self h)
    = Raised NameError.
Proof.
  intros run.
  destruct (profile_not_supplied_cases self) as (Hb & He & Hp & Hv).
  assert (Hbase : run BASE_OPTIMIZER h
                  = (Raised NameError,
                     snd (deepcopy (dict_of_chargers self) h))).
  { apply run_control_method_raises. exact Hb. }
  split; [| split; [| split; [| split; [| split]]]].
  - intros H. apply run_control_method_skips. now rewrite He, H.
  - intros H. apply run_control_method_skips. now rewrite Hp, H.
  - intros H. apply run_control_method_skips. now rewrite Hv, H.
  - intros control_type H. subst run. unfold controller_namespace.
    now rewrite run_control_method_raises.
  - now rewrite Hbase.
  - unfold run_all_control_methods. fold run. now rewrite Hbase.
Qed.

(** The sample site has none of the three frames.  As the sources stand the
    call raises in the base strategy. *)
Lemma run_all_control_methods_on_sample :
  fst (run_all_control_methods stable_sort_values controller_namespace
         sample_site sample_heap) = Raised NameError.
Proof. reflexivity. Qed.

(** With the name bound only the base strategy runs, the other three are
    reported as [None] and leave no object behind. *)
Lemma run_all_control_methods_on_sample_when_bound :
  let r := run_all_control_methods stable_sort_values Bound sample_site
             sample_heap in
  match fst r with
  | Returned sites =>
      (λ kv, (fst kv, is_None (snd kv))) <$> sites
      = [("Basic", false); ("Emission", true); ("Price", true); ("PV", true)]
  | Raised _ => False
  end
  ∧ snd r
    = snd (run_control_method stable_sort_values Bound sample_site
             BASE_OPTIMIZER sample_heap).
Proof.
  vm_compute. split; reflexivity.
Qed.

(* ================================================================== *)
(** * Further properties of the sources *)
(* ================================================================== *)

(** ** Schedule *)

Lemma Time_time_week (t k : Z) : Time.time (t + 604800 * k) = Time.time t.
Proof.
  unfold Time.time, Time.SECONDS_PER_DAY.
  replace (t + 604800 * k) with (t + (7 * k) * 86400) by lia.
  apply Z_mod_plus_full.
Qed.

Lemma Time_weekday_week (t k : Z) :
  Time.weekday (t + 604800 * k) = Time.weekday t.
Proof.
  unfold Time.weekday, Time.date, Time.SECONDS_PER_DAY.
  replace (t + 604800 * k) with (t + (7 * k) * 86400) by lia.
  rewrite Z_div_plus_full by lia.
  replace (t / 86400 + 7 * k + 3) with (t / 86400 + 3 + k * 7) by lia.
  apply Z_mod_plus_full.
Qed.

(** X1.  [Schedule.is_plugged] reads only the weekday and the time of day of
    its argument, so it repeats every week: shifting a timestamp by any
    whole number of weeks (604800 s each) does not change the answer. *)
Theorem is_plugged_weekly (s : Schedule) (t k : Z) :
  is_plugged s (t + 604800 * k) = is_plugged s t.
Proof.
  unfold is_plugged. now rewrite Time_weekday_week, Time_time_week.
Qed.

Lemma Time_weekday_range (t : Z) : 0 <= Time.weekday t < 7.
Proof. unfold Time.weekday. apply Z.mod_pos_bound. lia. Qed.

(** X2.  A schedule built without arguments ([__post_init__] fills the day
    list with Monday to Friday) is plugged exactly from 08:00 to 17:00, both
    ends included, on the weekdays 0 to 4; never on a Saturday or Sunday. *)
Theorem default_schedule_plugged (t : Z) :
  (is_plugged (Schedule_init None None None) t = true
   ↔ Time.weekday t <= 4
     ∧ Time.of_hm 8 0 <= Time.time t <= Time.of_hm 17 0)
  ∧ (5 <= Time.weekday t →
     is_plugged (Schedule_init None None None) t = false).
Proof.
  pose proof (Time_weekday_range t) as Hw.
  assert (Hdays : Time.weekday t ∈ [0; 1; 2; 3; 4] ↔ Time.weekday t <= 4).
  { rewrite !elem_of_cons, elem_of_nil. lia. }
  assert (Hiff : is_plugged (Schedule_init None None None) t = true
                 ↔ Time.weekday t <= 4
                   ∧ Time.of_hm 8 0 <= Time.time t <= Time.of_hm 17 0).
  { rewrite is_plugged_spec. cbn [Schedule_init list_days arrival_time
      departure_time default]. rewrite Hdays. reflexivity. }
  split; [exact Hiff |].
  intros H5. apply not_true_is_false. intros E. apply Hiff in E. lia.
Qed.

Lemma get_plugged_profile_lookup (s : Schedule) (timesteps : list Z) (i : nat) :
  get_plugged_profile s timesteps !! i = is_plugged s <$> timesteps !! i.
Proof. unfold get_plugged_profile. apply list_lookup_fmap. Qed.

(** ** Battery *)

(** X3.  Energy bookkeeping of one step: for a battery of non-zero capacity,
    the energy [run_model] returns at a plugged timestep is the capacity
    times the rise of the state of charge over its value after the loss;
    at an unplugged timestep nothing is returned. *)
Theorem run_model_energy_balance (b : Battery) (t : Z) (e : Q) :
  ¬ (battery_size b == 0)%Q →
  let s1 := (current_soc b - battery_losses b)%Q in
  let r := run_model b t e in
  (is_plugged (schedule b) t = true →
     (fst r == battery_size b * (current_soc (snd r) - s1))%Q)
  ∧ (is_plugged (schedule b) t = false → fst r = 0%Q).
Proof.
  intros Hsz s1 r.
  destruct (run_model_cases b t e)
    as [(Hp & Hr & Hs) | [(Hp & Heq & Hr & Hs) | [(Hp & Hne & Hle & Hr & Hs)
       | (Hp & Hne & Hgt & Hr & Hs)]]];
    fold s1 in Hs; fold r in Hr, Hs; (split; intros Hp'; try congruence).
  - rewrite Hr, Hs. lra.
  - rewrite Hr, Hs. fold s1. field. exact Hsz.
  - rewrite Hr, Hs. fold s1. lra.
Qed.

Lemma run_model_energy_balance_witness :
  let t := Time.at_day MONDAY (Time.of_hm 9 0) in
  let s1 := (current_soc fleet_battery - battery_losses fleet_battery)%Q in
  let r := run_model fleet_battery t (7 # 2) in
  (is_plugged (schedule fleet_battery) t = true →
     (fst r == battery_size fleet_battery * (current_soc (snd r) - s1))%Q)
  ∧ (is_plugged (schedule fleet_battery) t = false → fst r = 0%Q).
Proof.
  intros t.
  apply (run_model_energy_balance fleet_battery t (7 # 2)).
  vm_compute. discriminate.
Defined.

(** X4.  A battery of positive capacity whose state of charge after the loss
    is not above its target, offered a non-negative energy: it takes
    between nothing and the offer, its state of charge does not fall at a
    plugged step, and it never passes the target. *)
Theorem run_model_charges_toward_target (b : Battery) (t : Z) (e : Q) :
  (0 < battery_size b)%Q → (0 <= e)%Q →
  (current_soc b - battery_losses b <= target_soc b)%Q →
  let r := run_model b t e in
  (0 <= fst r)%Q ∧ (fst r <= e)%Q
  ∧ (is_plugged (schedule b) t = true →
       (current_soc b - battery_losses b <= current_soc (snd r))%Q
       ∧ (current_soc (snd r) <= target_soc b)%Q).
Proof.
  intros Hs He Hle r.
  assert (Hb : (0 <= fst r <= e)%Q).
  { apply run_model_consumed_bounds; [exact He | lra | exact Hle]. }
  split; [apply Hb |]. split; [apply Hb |].
  intros Hp.
  destruct (run_model_cases b t e)
    as [(Hp' & _) | [(_ & Heq & _ & Hsoc) | [(_ & _ & Hl & _ & Hsoc)
       | (_ & _ & _ & _ & Hsoc)]]]; [congruence | | |];
    fold r in Hsoc; rewrite Hsoc.
  - lra.
  - split.
    + apply Qle_shift_div_l; [exact Hs |]. lra.
    + apply Qle_shift_div_r; [exact Hs |]. lra.
  - lra.
Qed.

Lemma run_model_charges_toward_target_witness :
  let t := Time.at_day MONDAY (Time.of_hm 9 0) in
  let r := run_model fleet_battery t (7 # 2) in
  (0 <= fst r)%Q ∧ (fst r <= 7 # 2)%Q
  ∧ (is_plugged (schedule fleet_battery) t = true →
       (current_soc fleet_battery - battery_losses fleet_battery
        <= current_soc (snd r))%Q
       ∧ (current_soc (snd r) <= target_soc fleet_battery)%Q).
Proof.
  intros t.
  apply (run_model_charges_toward_target fleet_battery t (7 # 2));
    vm_compute; congruence.
Defined.

(** X5.  [calculate_charging_time] has one entry per charger output, keyed by
    its position, and the time of an entry times its (non-zero) output is
    the battery's requested energy. *)
Theorem calculate_charging_time_spec (b : Battery)
    (chargers_max_output : list Q) :
  length (calculate_charging_time b chargers_max_output)
  = length chargers_max_output
  ∧ ∀ index max_output,
      chargers_max_output !! index = Some max_output →
      ∃ charge_time,
        calculate_charging_time b chargers_max_output !! index
        = Some (index, charge_time)
        ∧ (¬ (max_output == 0)%Q →
           (charge_time * max_output == requested_energy b)%Q).
Proof.
  unfold calculate_charging_time. split; [apply length_imap |].
  intros index max_output Hl. eexists. split.
  - rewrite list_lookup_imap, Hl. reflexivity.
  - intros Hne. unfold requested_energy, target_energy_stored,
      current_energy_stored. field. exact Hne.
Qed.

(** ** EV.charging_profile *)

Lemma charging_loop_cons (b : Battery) (t : Z) (ts : list Z) (outs : list Q) :
  charging_loop b (t :: ts) outs
  = let r := run_model b t (hd 0%Q outs) in
    let r' := charging_loop (snd r) ts (tail outs) in
    (fst r',
     mkTrace (current_soc (snd r) :: soc_arr (snd r'))
       (fst r :: energy_input_arr (snd r'))
       ((if is_plugged (schedule (snd r)) t then 1%Q else 0%Q)
          :: plugged_flag_arr (snd r'))).
Proof.
  cbn [charging_loop]. destruct (run_model b t (hd 0%Q outs)) as [c b'].
  cbn [fst snd]. now destruct (charging_loop b' ts (tail outs)) as [b'' tr].
Qed.

Lemma charging_loop_spec (ts : list Z) (b : Battery) (outs : list Q) :
  let r := charging_loop b ts outs in
  (length (soc_arr (snd r)) = length ts
   ∧ length (energy_input_arr (snd r)) = length ts
   ∧ length (plugged_flag_arr (snd r)) = length ts)
  ∧ (target_soc (fst r) = target_soc b ∧ battery_size (fst r) = battery_size b
     ∧ schedule (fst r) = schedule b
     ∧ battery_losses (fst r) = battery_losses b
     ∧ initial_soc (fst r) = initial_soc b)
  ∧ (∀ i t, ts !! i = Some t →
       plugged_flag_arr (snd r) !! i
       = Some (if is_plugged (schedule b) t then 1%Q else 0%Q)
       ∧ (is_plugged (schedule b) t = false →
          energy_input_arr (snd r) !! i = Some 0%Q
          ∧ soc_arr (snd r) !! i = Some (initial_soc b)))
  ∧ (∀ t, last ts = Some t → is_plugged (schedule b) t = false →
       current_soc (fst r) = initial_soc b).
Proof.
  revert b outs. induction ts as [| t ts IH]; intros b outs r.
  - subst r. cbn. repeat split; try discriminate.
    all: intros i t H; discriminate.
  - subst r. rewrite charging_loop_cons. cbn zeta.
    destruct (run_model_frame b t (hd 0%Q outs)) as (Et & Es & Esch & El & Ei).
    specialize (IH (snd (run_model b t (hd 0%Q outs))) (tail outs)).
    cbn zeta in IH.
    destruct IH as ((L1 & L2 & L3) & (Ft & Fs & Fsch & Fl & Fi) & Hsteps & Hlast).
    cbn [fst snd soc_arr energy_input_arr plugged_flag_arr length].
    split; [repeat split; congruence |].
    split; [repeat split; congruence |].
    split.
    + intros [| i] t' Ht'; cbn in Ht'.
      * injection Ht' as <-. cbn [lookup list_lookup]. rewrite Esch.
        split; [reflexivity |]. intros Hp.
        destruct (run_model_cases b t (hd 0%Q outs))
          as [(_ & Hr & Hs) | [(Hp' & _) | [(Hp' & _) | (Hp' & _)]]];
          try congruence.
        now rewrite Hr, Hs.
      * rewrite !lookup_cons. cbn.
        destruct (Hsteps i t' Ht') as [Hf Hun]. rewrite Esch, Ei in *.
        split; [exact Hf | exact Hun].
    + intros t' Hl Hp. destruct ts as [| t2 ts].
      * cbn in Hl. injection Hl as <-. cbn.
        destruct (run_model_cases b t (hd 0%Q outs))
          as [(_ & _ & Hs) | [(Hp' & _) | [(Hp' & _) | (Hp' & _)]]];
          try congruence.
      * rewrite <- Ei. apply (Hlast t'); [exact Hl |]. now rewrite Esch.
Qed.

(** X6.  [EV.charging_profile] returns one energy per timestep; at every
    timestep where the schedule says unplugged the energy is 0, whatever was
    offered.  The run leaves the vehicle's name and the battery's target,
    capacity, schedule, loss rate and initial state of charge as they were,
    and a run that ends on an unplugged timestep leaves the battery at its
    initial state of charge. *)
Theorem EV_charging_profile_unplugged (ev : EV) (ts : list Z) (outs : list Q) :
  let r := EV_charging_profile ev ts outs in
  let b := battery ev in
  let b' := battery (snd r) in
  length (fst r) = length ts
  ∧ (∀ i t, ts !! i = Some t → is_plugged (schedule b) t = false →
       fst r !! i = Some 0%Q)
  ∧ (ev_name (snd r) = ev_name ev
     ∧ target_soc b' = target_soc b ∧ battery_size b' = battery_size b
     ∧ schedule b' = schedule b ∧ battery_losses b' = battery_losses b
     ∧ initial_soc b' = initial_soc b)
  ∧ (∀ t, last ts = Some t → is_plugged (schedule b) t = false →
       current_soc b' = initial_soc b).
Proof.
  intros r b b'.
  pose proof (charging_loop_spec ts (battery ev) outs) as H. cbn zeta in H.
  subst r b b'. unfold EV_charging_profile.
  destruct (charging_loop (battery ev) ts outs) as [bf tr].
  cbn [fst snd battery set_ev_data_recorder set_battery ev_name] in *.
  destruct H as ((_ & L2 & _) & Hframe & Hsteps & Hlast).
  split; [exact L2 |]. split; [| split; [| exact Hlast]].
  - intros i t Ht Hp. now destruct (Hsteps i t Ht) as [_ [He _]].
  - split; [reflexivity | exact Hframe].
Qed.

(** ** TimeserieRecorder *)

Lemma zero_column_lookup (ix : list Z) (t : Z) :
  zero_column ix !! t = if bool_decide (t ∈ ix) then Some 0 else None.
Proof.
  unfold zero_column. induction ix as [| t' ix IH]; cbn.
  - rewrite lookup_empty. now rewrite bool_decide_eq_false_2 by set_solver.
  - destruct (decide (t' = t)) as [-> | Hne].
    + rewrite lookup_insert_eq. now rewrite bool_decide_eq_true_2 by set_solver.
    + rewrite lookup_insert_ne by exact Hne. rewrite IH.
      rewrite (bool_decide_ext (t ∈ t' :: ix) (t ∈ ix)); [reflexivity |].
      rewrite elem_of_cons.
      split; [intros [E | Hin]; [congruence | exact Hin] | auto].
Qed.

Lemma init_columns_lookup (ix : list Z) (cols : list string) (c : string) :
  (list_to_map ((λ c, (c, zero_column ix)) <$> cols)
     : gmap string (gmap Z Z)) !! c
  = if bool_decide (c ∈ cols) then Some (zero_column ix) else None.
Proof.
  induction cols as [| c' cols IH]; cbn.
  - rewrite lookup_empty. now rewrite bool_decide_eq_false_2 by set_solver.
  - destruct (decide (c' = c)) as [-> | Hne].
    + rewrite lookup_insert_eq. now rewrite bool_decide_eq_true_2 by set_solver.
    + rewrite lookup_insert_ne by exact Hne. rewrite IH.
      rewrite (bool_decide_ext (c ∈ c' :: cols) (c ∈ cols)); [reflexivity |].
      rewrite elem_of_cons.
      split; [intros [E | Hin]; [congruence | exact Hin] | auto].
Qed.

(** X7.  A new recorder has one column per header name except the first
    (which names the index), and every cell of the frame is 0: a cell
    exists exactly for a data column and a label of the index. *)
Theorem TimeserieRecorder_init_zero (ix : list Z) (hd : list string)
    (c : string) (t : Z) :
  index (TimeserieRecorder_init ix hd) = ix
  ∧ cell (TimeserieRecorder_init ix hd) c t
    = (if bool_decide (c ∈ get_column_names hd) && bool_decide (t ∈ ix)
       then Some 0 else None)
  ∧ get_column_names hd = tail hd.
Proof.
  split; [reflexivity |]. split; [| reflexivity].
  unfold cell, TimeserieRecorder_init. cbn [recorded_data].
  rewrite init_columns_lookup.
  destruct (bool_decide (c ∈ get_column_names hd)); cbn; [| reflexivity].
  apply zero_column_lookup.
Qed.

(** X8.  [record_batch_data] into an existing column, with labels that are
    distinct and in the recorder's index: each label given a value reads
    back that value with its fraction dropped, every other cell of the
    column and every other column keep what they held, and the index is
    unchanged. *)
Theorem record_batch_data_read_back (r : TimeserieRecorder) (labels : list Z)
    (values : list Q) (col_name : string) (old : gmap Z Z) :
  NoDup labels → Forall (λ t, t ∈ index r) labels →
  recorded_data r !! col_name = Some old →
  let r' := record_batch_data r labels values col_name in
  index r' = index r
  ∧ (∀ i t v, labels !! i = Some t → values !! i = Some v →
       cell r' col_name t = Some (astype_int64 v))
  ∧ (∀ t, t ∉ labels → cell r' col_name t = cell r col_name t)
  ∧ (∀ c t, c ≠ col_name → cell r' c t = cell r c t).
Proof.
  intros Hnd Hin Hold r'. split; [reflexivity |]. split; [| split].
  - intros i t v Hl Hv. eapply record_batch_data_cell; eauto.
    rewrite Forall_forall in Hin. apply Hin.
    eapply list_elem_of_lookup_2; eauto.
  - intros t Ht. subst r'. unfold cell, record_batch_data.
    cbn [recorded_data]. rewrite lookup_insert_eq, Hold. cbn.
    now apply loc_assign_notin.
  - intros c t Hne. now apply record_batch_data_other.
Qed.

Lemma record_batch_data_read_back_witness :
  let r := TimeserieRecorder_init sample_timesteps EVData in
  let r' := record_batch_data r sample_timesteps [7 # 2; - (1 # 2)]%Q SOC in
  index r' = index r
  ∧ (∀ i t v, sample_timesteps !! i = Some t →
       [7 # 2; - (1 # 2)]%Q !! i = Some v →
       cell r' SOC t = Some (astype_int64 v))
  ∧ (∀ t, t ∉ sample_timesteps → cell r' SOC t = cell r SOC t)
  ∧ (∀ c t, c ≠ SOC → cell r' c t = cell r c t).
Proof.
  intros r.
  apply (record_batch_data_read_back r sample_timesteps
           [7 # 2; - (1 # 2)]%Q SOC (zero_column sample_timesteps)).
  - apply (bool_decide_unpack (NoDup sample_timesteps)). vm_compute. exact I.
  - apply (bool_decide_unpack
             (Forall (λ t, t ∈ index r) sample_timesteps)).
    vm_compute. exact I.
  - vm_compute. reflexivity.
Defined.

(** X9.  The integer stored for a value drops the fraction toward zero: for
    a value whose integer part fits 64 bits, the stored integer lies
    between 0 and the value and differs from it by less than 1; so 3.5 kWh
    is recorded as 3 and -0.5 as 0. *)
Theorem astype_int64_toward_zero (v : Q) :
  INT64_MIN < Qnum v `quot` Z.pos (Qden v) <= INT64_MAX →
  let z := astype_int64 v in
  ((0 <= v)%Q → (0 <= inject_Z z)%Q ∧ (inject_Z z <= v)%Q
                 ∧ (v < inject_Z z + 1)%Q)
  ∧ ((v <= 0)%Q → (inject_Z z <= 0)%Q ∧ (v <= inject_Z z)%Q
                   ∧ (inject_Z z - 1 < v)%Q)
  ∧ astype_int64 (inject_Z z) = z.
Proof.
  intros Hr z.
  destruct (astype_int64_truncates v Hr) as [Hpos Hneg]. fold z in Hpos, Hneg.
  assert (Hz : z = Qnum v `quot` Z.pos (Qden v)).
  { subst z. unfold astype_int64. cbn zeta.
    rewrite (proj2 (Z.leb_le _ _)) by lia.
    rewrite (proj2 (Z.leb_le _ _)) by lia. reflexivity. }
  split; [| split].
  - intros H0. destruct (Hpos H0) as [H1 H2]. split; [| auto].
    assert (Hz0 : 0 <= z).
    { rewrite Hz. apply Z.quot_pos; [| lia].
      unfold Qle in H0. cbn in H0. lia. }
    unfold Qle. cbn. lia.
  - intros H0. destruct (Hneg H0) as [H1 H2]. split; [| auto].
    assert (Hz0 : z <= 0).
    { rewrite Hz. unfold Qle in H0. cbn in H0.
      pose proof (Z.quot_opp_l (Qnum v) (Z.pos (Qden v)) ltac:(lia)) as Ho.
      pose proof (Z.quot_pos (- Qnum v) (Z.pos (Qden v))
                    ltac:(lia) ltac:(lia)).
      lia. }
    unfold Qle. cbn. lia.
  - apply astype_int64_inject_Z. rewrite Hz. lia.
Qed.

Lemma astype_int64_toward_zero_witness :
  let z := astype_int64 (7 # 2) in
  ((0 <= 7 # 2)%Q → (0 <= inject_Z z)%Q ∧ (inject_Z z <= 7 # 2)%Q
                     ∧ (7 # 2 < inject_Z z + 1)%Q)
  ∧ ((7 # 2 <= 0)%Q → (inject_Z z <= 0)%Q ∧ (7 # 2 <= inject_Z z)%Q
                       ∧ (inject_Z z - 1 < 7 # 2)%Q)
  ∧ astype_int64 (inject_Z z) = z.
Proof.
  apply (astype_int64_toward_zero (7 # 2)). vm_compute. split; congruence.
Defined.

(** ** The availability profile, once more *)

(** X10.  [charger_load_availability_profile] is never negative, is at most
    the charger's output when that is not negative, keeps the site within
    the import limit whenever the site alone is within it, and is the
    charger's full output when site load plus that output fits under the
    limit. *)
Theorem charger_load_availability_profile_bounds (site limit max_out : Q) :
  let p := charger_load_availability_profile site limit max_out in
  (0 <= p)%Q
  ∧ ((0 <= max_out)%Q → (p <= max_out)%Q)
  ∧ ((site <= limit)%Q → (site + p <= limit)%Q)
  ∧ ((0 <= max_out)%Q → (site + max_out <= limit)%Q → p = max_out)
  ∧ ((limit <= site)%Q → p = 0%Q ∨ (p == 0)%Q).
Proof.
  intros p. subst p. unfold charger_load_availability_profile.
  destruct (Qgt_bool (site + max_out) limit) eqn:E1;
    [apply Qgt_bool_true in E1 | apply Qgt_bool_false in E1].
  - destruct (Qlt_bool (limit - site) 0) eqn:E2;
      [apply Qlt_bool_true in E2 | apply Qlt_bool_false in E2];
      repeat split; intros; try lra; auto; right; lra.
  - destruct (Qlt_bool max_out 0) eqn:E2;
      [apply Qlt_bool_true in E2 | apply Qlt_bool_false in E2];
      repeat split; intros; try lra; auto; right; lra.
Qed.

(** ** The cut of the ranked frame *)

(** X12.  [find_last_index] is one more than the number of rows whose
    cumulative energy is below the request, capped at the length of the
    frame: 0 for an empty frame and at least 1 otherwise, so the first
    ranked row is always selected.  [generate_filter] is true exactly on the
    positions before that index, and the rows it selects are the first
    [find_last_index] rows. *)
Theorem find_last_index_bounds (dataf : list Row) (e : Q) :
  let last := find_last_index dataf e in
  (last <= length dataf)%nat
  ∧ (dataf = [] → last = 0%nat)
  ∧ (dataf ≠ [] → (1 <= last)%nat)
  ∧ length (generate_filter dataf e) = length dataf
  ∧ (∀ i, (i < length dataf)%nat →
       generate_filter dataf e !! i = Some (bool_decide (i < last)%nat))
  ∧ loc_mask (generate_filter dataf e) dataf = take last dataf.
Proof.
  intros last. pose proof (find_last_index_min dataf e) as Hmin.
  fold last in Hmin.
  split; [lia |]. split; [intros ->; reflexivity |].
  split; [| split; [| split]].
  - intros Hne. destruct dataf; [congruence |]. cbn [length] in Hmin. lia.
  - unfold generate_filter. apply length_imap.
  - intros i Hi. unfold generate_filter. rewrite list_lookup_imap.
    destruct (lookup_lt_is_Some_2 dataf i Hi) as [r ->]. reflexivity.
  - rewrite generate_filter_prefix. apply loc_mask_prefix.
Qed.

(** ** The frames of the strategies *)

Lemma frame_equals_refl (a : list (Z * Q)) : frame_equals a a = true.
Proof.
  unfold frame_equals. rewrite Nat.eqb_refl. cbn.
  induction a as [| [t v] a IH]; [reflexivity |].
  cbn. rewrite Z.eqb_refl, IH.
  now rewrite (proj2 (Qeq_bool_iff v v)) by reflexivity.
Qed.

(** X18.  For the PV strategy [site_dataf_creator] hands the PV frame to
    [optimizer_selector] both as target and as electricity demand; the two
    are equal, so the frame that comes back carries the PV values in its
    target column and in its site-energy column, on the PV frame's index.
    The site's electricity demand does not enter it. *)
Theorem pv_strategy_frame (self : Optimized_Sites) (pv : list (Z * Q)) :
  pv_dataf self = Some pv →
  site_dataf_creator self PV_OPTIMIZER
  = (λ tv, mkRow (fst tv) (snd tv) (snd tv) 0 0) <$> pv.
Proof.
  intros Hpv. unfold site_dataf_creator, optimizer_selector.
  rewrite Hpv. cbn [default]. rewrite frame_equals_refl.
  unfold create_dataf_for_control. clear Hpv.
  induction pv as [| [t v] pv' IH]; [reflexivity |].
  cbn [zip_with fmap list_fmap]. rewrite <- IH. reflexivity.
Qed.

Lemma pv_strategy_frame_witness :
  let self :=
    mkOptimizedSites (half_hour_index MONDAY) sample_demand
      [("Charger_1", 1%positive)]
      (TimeserieRecorder_init (half_hour_index MONDAY) SiteData)
      loose_limits None None (Some [(0, 3%Q); (1800, 2%Q)]) in
  site_dataf_creator self PV_OPTIMIZER
  = (λ tv, mkRow (fst tv) (snd tv) (snd tv) 0 0)
      <$> [(0, 3%Q); (1800, 2%Q)].
Proof.
  intros self.
  apply (pv_strategy_frame self [(0, 3%Q); (1800, 2%Q)]).
  reflexivity.
Defined.

Lemma Time_hour_range (t : Z) : 0 <= Time.hour t <= 23.
Proof.
  unfold Time.hour, Time.time, Time.SECONDS_PER_DAY.
  pose proof (Z.mod_pos_bound t 86400 ltac:(lia)) as H.
  split.
  - apply Z.div_pos; lia.
  - assert (t mod 86400 / 3600 < 24); [| lia].
    apply Z.div_lt_upper_bound; lia.
Qed.

(** X19.  The base frame has one row per row of the electricity demand, on
    the same label and with the same site energy, and its target is the
    hour of the label: a whole number from 0 to 23 that is the same for two
    timestamps a whole number of days apart. *)
Theorem create_dataf_base_rows (electricity_demand : list (Z * Q)) :
  let dataf := optimizer_selector electricity_demand None in
  length dataf = length electricity_demand
  ∧ (∀ j t e, electricity_demand !! j = Some (t, e) →
       ∃ r, dataf !! j = Some r ∧ idx r = t ∧ site_energy r = e
            ∧ target r = inject_Z (Time.hour t)
            ∧ 0 <= Time.hour t <= 23)
  ∧ (∀ t k, Time.hour (t + 86400 * k) = Time.hour t).
Proof.
  intros dataf. subst dataf. unfold optimizer_selector, create_dataf_base.
  split; [apply length_fmap |]. split.
  - intros j t e Hj. eexists. rewrite list_lookup_fmap, Hj. cbn.
    split; [reflexivity |]. cbn. repeat split; apply Time_hour_range.
  - intros t k. unfold Time.hour, Time.time, Time.SECONDS_PER_DAY.
    replace (t + 86400 * k) with (t + k * 86400) by lia.
    now rewrite Z_mod_plus_full.
Qed.

(** ** [deepcopy]: the copies equal the originals *)

Lemma ev_copy_rel_mono (h h' : Heap) (l l' : loc) :
  heap_incl h h' → ev_copy_rel h l l' → ev_copy_rel h' l l'.
Proof.
  intros [He _] [-> | (ev & H1 & H2)]; [now left |].
  right. exists ev. auto.
Qed.

Lemma charger_copy_rel_mono (h h' : Heap) (c c' : loc) :
  heap_incl h h' → charger_copy_rel h c c' → charger_copy_rel h' c c'.
Proof.
  intros Hincl [-> | (ch & evl' & H1 & H2 & H3)]; [now left |].
  right. exists ch, evl'. destruct Hincl as [He Hc].
  split; [auto |]. split; [auto |].
  eapply Forall2_impl; [exact H3 |].
  intros l l'. apply ev_copy_rel_mono. now split.
Qed.

Lemma memo_sound_mono (st : CopyState) (h' : Heap) :
  memo_sound st → heap_incl (cs_heap st) h' →
  memo_sound (mkCopyState (memo_evs st) (memo_chargers st) h').
Proof.
  intros [Me Mc] Hincl. split; cbn [memo_evs memo_chargers cs_heap].
  - intros l l' H. eapply ev_copy_rel_mono; eauto.
  - intros c c' H. eapply charger_copy_rel_mono; eauto.
Qed.

Lemma heap_incl_trans (h1 h2 h3 : Heap) :
  heap_incl h1 h2 → heap_incl h2 h3 → heap_incl h1 h3.
Proof. intros [A1 B1] [A2 B2]. split; eauto. Qed.

Lemma heap_incl_insert_ev (h : Heap) (l : loc) (ev : EV) :
  evs h !! l = None → heap_incl h (set_evs h (<[l := ev]> (evs h))).
Proof.
  intros Hn. split; cbn [evs chargers set_evs]; [| auto].
  intros k e H. rewrite lookup_insert_ne by congruence. exact H.
Qed.

Lemma heap_incl_insert_charger (h : Heap) (c : loc) (ch : Charger) :
  chargers h !! c = None →
  heap_incl h (set_chargers h (<[c := ch]> (chargers h))).
Proof.
  intros Hn. split; cbn [evs chargers set_chargers]; [auto |].
  intros k e H. rewrite lookup_insert_ne by congruence. exact H.
Qed.

Lemma deepcopy_EV_copy (l : loc) (st : CopyState) :
  memo_sound st →
  heap_incl (cs_heap st) (cs_heap (snd (deepcopy_EV l st)))
  ∧ memo_sound (snd (deepcopy_EV l st))
  ∧ ev_copy_rel (cs_heap (snd (deepcopy_EV l st))) l (fst (deepcopy_EV l st)).
Proof.
  intros Hm. pose proof Hm as [Me Mc]. unfold deepcopy_EV.
  destruct (memo_evs st !! l) as [l' |] eqn:Hl.
  - cbn [fst snd]. split; [apply heap_incl_refl |]. split; [exact Hm | auto].
  - destruct (evs (cs_heap st) !! l) as [ev |] eqn:Hev; cbn [fst snd].
    + set (l' := fresh (dom (evs (cs_heap st)))).
      assert (Hf : evs (cs_heap st) !! l' = None) by apply fresh_evs_None.
      pose proof (heap_incl_insert_ev (cs_heap st) l' ev Hf) as Hincl.
      assert (Hnew : ev_copy_rel
                       (set_evs (cs_heap st) (<[l' := ev]> (evs (cs_heap st))))
                       l l').
      { right. exists ev. cbn [evs set_evs]. split.
        - rewrite lookup_insert_ne by congruence. exact Hev.
        - apply lookup_insert_eq. }
      cbn [cs_heap]. split; [exact Hincl |]. split; [| exact Hnew].
      split; cbn [memo_evs memo_chargers cs_heap].
      * intros k k' H. destruct (decide (l = k)) as [<- | Hne].
        -- rewrite lookup_insert_eq in H. injection H as <-. exact Hnew.
        -- rewrite lookup_insert_ne in H by exact Hne.
           eapply ev_copy_rel_mono; eauto.
      * intros c c' H. eapply charger_copy_rel_mono; eauto.
    + split; [apply heap_incl_refl |]. split; [exact Hm | now left].
Qed.

Lemma deepcopy_ev_list_copy (evl : list loc) (st : CopyState) :
  memo_sound st →
  heap_incl (cs_heap st) (cs_heap (snd (deepcopy_ev_list evl st)))
  ∧ memo_sound (snd (deepcopy_ev_list evl st))
  ∧ Forall2 (ev_copy_rel (cs_heap (snd (deepcopy_ev_list evl st)))) evl
      (fst (deepcopy_ev_list evl st))
  ∧ chargers (cs_heap (snd (deepcopy_ev_list evl st))) = chargers (cs_heap st).
Proof.
  revert st. induction evl as [| l evl IH]; intros st Hm; cbn.
  - split; [apply heap_incl_refl |]. split; [exact Hm |].
    split; [constructor | reflexivity].
  - destruct (deepcopy_EV_copy l st Hm) as (Hi1 & Hm1 & Hr1).
    assert (Hc1 : chargers (cs_heap (snd (deepcopy_EV l st)))
                  = chargers (cs_heap st)).
    { unfold deepcopy_EV. destruct (memo_evs st !! l); [reflexivity |].
      now destruct (evs (cs_heap st) !! l). }
    destruct (deepcopy_EV l st) as [l' st']. cbn [fst snd] in *.
    destruct (IH st' Hm1) as (Hi2 & Hm2 & Hr2 & Hc2).
    destruct (deepcopy_ev_list evl st') as [evl'' st'']. cbn [fst snd] in *.
    split; [eapply heap_incl_trans; eauto |]. split; [exact Hm2 |].
    split; [| congruence].
    constructor; [eapply ev_copy_rel_mono; eauto | exact Hr2].
Qed.

Lemma deepcopy_Charger_copy (c : loc) (st : CopyState) :
  memo_sound st →
  heap_incl (cs_heap st) (cs_heap (snd (deepcopy_Charger c st)))
  ∧ memo_sound (snd (deepcopy_Charger c st))
  ∧ charger_copy_rel (cs_heap (snd (deepcopy_Charger c st))) c
      (fst (deepcopy_Charger c st)).
Proof.
  intros Hm. pose proof Hm as [Me Mc]. unfold deepcopy_Charger.
  destruct (memo_chargers st !! c) as [c' |] eqn:Hc.
  - cbn [fst snd]. split; [apply heap_incl_refl |]. split; [exact Hm | auto].
  - destruct (chargers (cs_heap st) !! c) as [ch |] eqn:Hch; cbn [fst snd].
    + destruct (deepcopy_ev_list_copy (ev_list ch) st Hm)
        as (Hi1 & [Me1 Mc1] & Hr1 & Hc1).
      destruct (deepcopy_ev_list (ev_list ch) st) as [evl' st'].
      cbn [fst snd] in *.
      set (c' := fresh (dom (chargers (cs_heap st')))).
      assert (Hf : chargers (cs_heap st') !! c' = None)
        by apply fresh_chargers_None.
      pose proof (heap_incl_insert_charger (cs_heap st') c'
                    (set_ev_list ch evl') Hf) as Hincl.
      assert (Hnew : charger_copy_rel
                       (set_chargers (cs_heap st')
                          (<[c' := set_ev_list ch evl']>
                             (chargers (cs_heap st')))) c c').
      { right. exists ch, evl'. cbn [chargers set_chargers].
        assert (Hch' : chargers (cs_heap st') !! c = Some ch) by congruence.
        split; [rewrite lookup_insert_ne by congruence; exact Hch' |].
        split; [apply lookup_insert_eq |].
        eapply Forall2_impl; [exact Hr1 |].
        intros l l'. now apply ev_copy_rel_mono. }
      cbn [cs_heap]. split; [eapply heap_incl_trans; eauto |].
      split; [| exact Hnew].
      split; cbn [memo_evs memo_chargers cs_heap].
      * intros k k' H. eapply ev_copy_rel_mono; eauto.
      * intros k k' H. destruct (decide (c = k)) as [<- | Hne].
        -- rewrite lookup_insert_eq in H. injection H as <-. exact Hnew.
        -- rewrite lookup_insert_ne in H by exact Hne.
           eapply charger_copy_rel_mono; eauto.
    + split; [apply heap_incl_refl |]. split; [exact Hm | now left].
Qed.

Lemma deepcopy_dict_copy (d : list (string * loc)) (st : CopyState) :
  memo_sound st →
  heap_incl (cs_heap st) (cs_heap (snd (deepcopy_dict d st)))
  ∧ memo_sound (snd (deepcopy_dict d st))
  ∧ Forall2 (λ kc kc', fst kc' = fst kc
                       ∧ charger_copy_rel (cs_heap (snd (deepcopy_dict d st)))
                           (snd kc) (snd kc'))
      d (fst (deepcopy_dict d st)).
Proof.
  revert st. induction d as [| [k c] d IH]; intros st Hm; cbn.
  - split; [apply heap_incl_refl |]. split; [exact Hm | constructor].
  - destruct (deepcopy_Charger_copy c st Hm) as (Hi1 & Hm1 & Hr1).
    destruct (deepcopy_Charger c st) as [c' st']. cbn [fst snd] in *.
    destruct (IH st' Hm1) as (Hi2 & Hm2 & Hr2).
    destruct (deepcopy_dict d st') as [d'' st'']. cbn [fst snd] in *.
    split; [eapply heap_incl_trans; eauto |]. split; [exact Hm2 |].
    constructor; [| exact Hr2]. cbn [fst snd].
    split; [reflexivity | eapply charger_copy_rel_mono; eauto].
Qed.

(** X20.  [deepcopy] of the roster returns a roster with the same names in
    the same order.  For every entry whose charger exists, the entry of the
    copy refers to a new charger with the same fields, whose vehicle list
    has new vehicles in place of the existing ones, each equal to the
    vehicle it stands for (battery and recorder included). *)
Theorem deepcopy_equal_copies (d : list (string * loc)) (h : Heap) :
  let d' := fst (deepcopy d h) in
  let h' := snd (deepcopy d h) in
  fst <$> d' = fst <$> d
  ∧ ∀ i k c ch, d !! i = Some (k, c) → chargers h !! c = Some ch →
      ∃ c' evl',
        d' !! i = Some (k, c')
        ∧ chargers h !! c' = None
        ∧ chargers h' !! c' = Some (set_ev_list ch evl')
        ∧ Forall2 (λ l l', ∀ ev, evs h !! l = Some ev →
                             evs h !! l' = None ∧ evs h' !! l' = Some ev)
            (ev_list ch) evl'.
Proof.
  intros d' h'.
  destruct (deepcopy_inv d h) as ((Hincl & Hclosed) & Hfresh & Hkeys).
  fold d' in Hfresh, Hkeys. fold h' in Hincl, Hclosed.
  split; [exact Hkeys |].
  assert (Hinit : memo_sound (mkCopyState ∅ ∅ h)).
  { split; cbn [memo_evs memo_chargers]; intros x y H;
      now rewrite lookup_empty in H. }
  destruct (deepcopy_dict_copy d _ Hinit) as (_ & _ & Hrel).
  assert (Hd' : d' = fst (deepcopy_dict d (mkCopyState ∅ ∅ h))).
  { subst d'. unfold deepcopy. now destruct (deepcopy_dict d _). }
  assert (Hh' : h' = cs_heap (snd (deepcopy_dict d (mkCopyState ∅ ∅ h)))).
  { subst h'. unfold deepcopy. now destruct (deepcopy_dict d _). }
  rewrite <- Hd', <- Hh' in Hrel.
  intros i k c ch Hi Hch.
  destruct (Forall2_lookup_l _ _ _ _ _ Hrel Hi) as ([k' c'] & Hi' & Hk & Hc).
  cbn [fst snd] in Hk, Hc. subst k'.
  assert (Hc'new : chargers h !! c' = None).
  { rewrite Forall_forall in Hfresh.
    apply (Hfresh (k, c')). eapply list_elem_of_lookup_2; eauto. }
  destruct Hc as [-> | (ch2 & evl' & H1 & H2 & H3)]; [congruence |].
  assert (ch2 = ch) as ->.
  { destruct Hincl as [_ Hc]. apply Hc in Hch. congruence. }
  exists c', evl'. split; [exact Hi' |]. split; [exact Hc'new |].
  split; [exact H2 |].
  pose proof (Hclosed c' _ Hc'new H2) as Hout. cbn [ev_list set_ev_list] in Hout.
  clear -H3 Hout Hincl.
  induction H3 as [| l l' evl evl' Hr _ IH]; [constructor |].
  apply Forall_cons in Hout as [Hl' Hout].
  constructor; [| now apply IH].
  intros ev Hev. split; [exact Hl' |].
  destruct Hr as [-> | (ev2 & E1 & E2)]; [congruence |].
  destruct Hincl as [He _]. apply He in Hev. congruence.
Qed.

Lemma ev_charging_profile_at_frame (l l2 : loc) (ts : list Z) (outs : list Q)
    (h : Heap) :
  l2 ≠ l →
  evs (snd (ev_charging_profile_at l ts outs h)) !! l2 = evs h !! l2.
Proof.
  intros Hne. unfold ev_charging_profile_at.
  destruct (evs h !! l) as [ev |]; [| reflexivity].
  destruct (EV_charging_profile ev ts outs) as [dispatched ev'].
  cbn [snd evs set_evs]. now rewrite lookup_insert_ne by congruence.
Qed.

Lemma dispatch_loop_evs_frame (evl : list loc) (ts : list Z)
    (energy total : list Q) (h : Heap) (l : loc) :
  l ∉ evl →
  evs (snd (dispatch_loop evl ts energy total h)) !! l = evs h !! l.
Proof.
  revert total h. induction evl as [| x evl IH]; intros total h Hn.
  - reflexivity.
  - apply not_elem_of_cons in Hn as [Hne Hn]. cbn [dispatch_loop].
    pose proof (ev_charging_profile_at_frame x l ts energy h Hne) as Hx.
    destruct (ev_charging_profile_at x ts energy h) as [dispatched h'].
    cbn [snd] in Hx. rewrite IH by exact Hn. exact Hx.
Qed.

(** X22.  [Charger.charging_profile] writes its own recorder and the
    vehicles of its list, nothing else: every other charger is as before,
    the charger itself keeps all its fields but the recorder (whose index
    stays), and a vehicle that is not in the list is as before. *)
Theorem Charger_charging_profile_frame (c : loc) (ts : list Z)
    (sched : option (list Q)) (h : Heap) :
  let h' := snd (Charger_charging_profile c ts sched h) in
  (chargers h !! c = None → h' = h)
  ∧ (∀ c2, c2 ≠ c → chargers h' !! c2 = chargers h !! c2)
  ∧ (∀ ch, chargers h !! c = Some ch →
       (∃ rec', chargers h' !! c = Some (set_data_recorder ch rec')
                ∧ index rec' = index (data_recorder ch))
       ∧ ∀ l, l ∉ ev_list ch → evs h' !! l = evs h !! l).
Proof.
  intros h'. subst h'. unfold Charger_charging_profile.
  destruct (chargers h !! c) as [self |] eqn:Hself.
  - set (energy := (λ p, (p * POWER_TO_ENERGY_FACTOR)%Q) <$> _).
    pose proof (dispatch_loop_chargers (ev_list self) ts energy (zeros ts) h)
      as Hch.
    pose proof (dispatch_loop_evs_frame (ev_list self) ts energy (zeros ts) h)
      as Hev.
    destruct (dispatch_loop (ev_list self) ts energy (zeros ts) h)
      as [total h1].
    cbn [snd] in *. split; [discriminate |]. split.
    + intros c2 Hne. cbn [chargers set_chargers].
      rewrite lookup_alter_ne by congruence. now rewrite Hch.
    + intros ch Heq. injection Heq as <-. split.
      * eexists. cbn [chargers set_chargers].
        rewrite lookup_alter_eq, Hch, Hself. cbn. split; reflexivity.
      * intros l Hl. cbn [evs set_chargers]. now apply Hev.
  - cbn [snd]. split; [reflexivity |]. split; [reflexivity | discriminate].
Qed.

(** ** sim_functions.py: the fleet's targets *)

Lemma set_fleet_charging_amount_lookup (list_evs : list loc) (amount : Q)
    (h : Heap) (l : loc) :
  let f := λ temp_ev,
    set_battery temp_ev
      (set_target_soc (battery temp_ev)
         (current_soc (battery temp_ev) + amount)%Q) in
  evs (set_fleet_charging_amount list_evs amount h) !! l
  = (if bool_decide (l ∈ list_evs) then f <$> evs h !! l else evs h !! l)
  ∧ chargers (set_fleet_charging_amount list_evs amount h) = chargers h.
Proof.
  intros f. revert h. induction list_evs as [| x xs IH]; intros h.
  - cbn. split; reflexivity.
  - change (set_fleet_charging_amount (x :: xs) amount h)
      with (set_fleet_charging_amount xs amount
              (set_evs h (alter f x (evs h)))).
    destruct (IH (set_evs h (alter f x (evs h)))) as [IHe IHc].
    split; [| rewrite IHc; reflexivity].
    rewrite IHe. cbn [evs set_evs].
    destruct (decide (l = x)) as [-> | Hne].
    + rewrite lookup_alter_eq.
      rewrite (bool_decide_eq_true_2 (x ∈ x :: xs)) by (now left).
      case_bool_decide; [| reflexivity].
      destruct (evs h !! x) as [ev |]; reflexivity.
    + rewrite lookup_alter_ne by congruence.
      rewrite (bool_decide_ext (l ∈ x :: xs) (l ∈ xs)); [reflexivity |].
      rewrite elem_of_cons. tauto.
Qed.

(** X23.  After [set_fleet_charging_amount] every listed vehicle has the
    target [current_soc + charging_amount] (its state of charge, capacity,
    schedule and recorder untouched), so it requests [charging_amount]
    times its capacity; a vehicle that is not listed, and every charger,
    is unchanged.  The target is written as computed: the constructor's cap
    at 1 is not applied to it. *)
Theorem set_fleet_charging_amount_spec (list_evs : list loc) (amount : Q)
    (h : Heap) :
  let h' := set_fleet_charging_amount list_evs amount h in
  chargers h' = chargers h
  ∧ (∀ l, l ∉ list_evs → evs h' !! l = evs h !! l)
  ∧ (∀ l ev, l ∈ list_evs → evs h !! l = Some ev →
       ∃ ev', evs h' !! l = Some ev'
         ∧ target_soc (battery ev')
           = (current_soc (battery ev) + amount)%Q
         ∧ (requested_energy (battery ev')
            == amount * battery_size (battery ev))%Q
         ∧ current_soc (battery ev') = current_soc (battery ev)
         ∧ battery_size (battery ev') = battery_size (battery ev)
         ∧ schedule (battery ev') = schedule (battery ev)
         ∧ initial_soc (battery ev') = initial_soc (battery ev)
         ∧ ev_data_recorder ev' = ev_data_recorder ev
         ∧ ev_name ev' = ev_name ev).
Proof.
  intros h'. subst h'.
  split; [apply (set_fleet_charging_amount_lookup list_evs amount h 1%positive) |].
  split.
  - intros l Hl.
    destruct (set_fleet_charging_amount_lookup list_evs amount h l) as [-> _].
    now rewrite bool_decide_eq_false_2 by exact Hl.
  - intros l ev Hl Hev.
    destruct (set_fleet_charging_amount_lookup list_evs amount h l) as [-> _].
    rewrite bool_decide_eq_true_2 by exact Hl. rewrite Hev. cbn.
    eexists. split; [reflexivity |]. cbn.
    repeat split. unfold requested_energy, target_energy_stored,
      current_energy_stored. cbn. ring.
Qed.

(** A vehicle built by [create_single_EV] (half charged, target 1) and then
    asked to charge by 0.6 has the target 1.1. *)
Lemma set_fleet_charging_amount_over_one :
  let ev := create_single_EV "EV_1"
              (TimeserieRecorder_init sample_timesteps EVData)
              [0; 1; 2; 3; 4] 60 in
  let h := mkHeap {[ 1%positive := ev ]} ∅ in
  let h' := set_fleet_charging_amount [1%positive] (3 # 5) h in
  target_soc (battery ev) = 1%Q
  ∧ ∃ ev', evs h' !! 1%positive = Some ev'
           ∧ (target_soc (battery ev') == 11 # 10)%Q
           ∧ (1 < target_soc (battery ev'))%Q.
Proof.
  split; [reflexivity |]. eexists. split; [vm_compute; reflexivity |].
  split; reflexivity.
Qed.
